(** * emulsiV: the Virgule core, its bus and its devices (src/virgule.js)

    A shallow embedding of [virgule.js].  JavaScript numbers that the
    simulator manipulates are integers well inside the exactly
    representable range of a double, so they are modelled as [Z]; every
    place where the language truncates to 32 bits is written out.

    Objects that are mutated in place (the devices owned by a bus) live in
    an explicit store and are referred to by their position in it. *)

From Stdlib Require Import ZArith Bool String List Lia.
From Stdlib.Strings Require Import Byte.
From stdpp Require Import base list.
Import ListNotations.

Local Open Scope Z_scope.

(** ** ECMAScript integer operators *)

Module js.

(** [ToInt32]: wrap to the signed 32-bit range. *)
Definition ToInt32 (z : Z) : Z := (z + 2147483648) mod 4294967296 - 2147483648.

(** [ToUint32]: wrap to the unsigned 32-bit range. *)
Definition ToUint32 (z : Z) : Z := z mod 4294967296.

(** Shift counts are taken modulo 32. *)
Definition count (b : Z) : Z := ToUint32 b mod 32.

(** [a << b] *)
Definition shl (a b : Z) : Z := ToInt32 (Z.shiftl (ToInt32 a) (count b)).
(** [a >> b] *)
Definition sar (a b : Z) : Z := Z.shiftr (ToInt32 a) (count b).
(** [a >>> b] *)
Definition shr (a b : Z) : Z := Z.shiftr (ToUint32 a) (count b).
(** [a & b], [a | b], [a ^ b], [~a] *)
Definition and (a b : Z) : Z := Z.land (ToInt32 a) (ToInt32 b).
Definition or (a b : Z) : Z := Z.lor (ToInt32 a) (ToInt32 b).
Definition xor (a b : Z) : Z := Z.lxor (ToInt32 a) (ToInt32 b).
Definition not (a : Z) : Z := Z.lnot (ToInt32 a).

(** A value that may be [undefined] ([None]); as an operand of a bit
    operator [undefined] converts to [0]. *)
Definition number (v : option Z) : Z :=
  match v with Some z => z | None => 0 end.

(** Truthiness of a field that holds a boolean or was never assigned. *)
Definition truthy (v : option bool) : bool :=
  match v with Some b => b | None => false end.

End js.

(** ** int32.js *)

Module int32.

(** Modelled from the spec: [int32.js] is not part of the sources at hand.
    [signed(word)] reinterprets the low 32 bits of an integer as a
    two's-complement signed 32-bit value. *)
Definition signed (word : Z) : Z := js.ToInt32 word.

(** Modelled from the spec: [int32.js] is not part of the sources at hand.
    [unsigned(word)] reinterprets the low 32 bits as an unsigned value in
    the range 0..2^32-1. *)
Definition unsigned (word : Z) : Z := js.ToUint32 word.

(** Modelled from the spec: [int32.js] is not part of the sources at hand.
    [unsignedSlice(value, hi, lo)] extracts bits [lo..hi] inclusive and
    zero-extends them. *)
Definition unsignedSlice (value hi lo : Z) : Z :=
  Z.shiftr value lo mod 2 ^ (hi - lo + 1).

(** Modelled from the spec: [int32.js] is not part of the sources at hand.
    [signedSlice(value, hi, lo)] extracts bits [lo..hi] inclusive and
    sign-extends them from bit [hi]. *)
Definition signedSlice (value hi lo : Z) : Z :=
  let u := unsignedSlice value hi lo in
  if Z.testbit value hi then u - 2 ^ (hi - lo + 1) else u.

End int32.

(** ** Uint8Array *)

Module Uint8Array.

Abbreviation t := (list byte).

Definition to_Z (b : byte) : Z := Z.of_N (Byte.to_N b).

(** Conversion of a number to an element (modulo 256). *)
Definition of_Z (z : Z) : byte :=
  match Byte.of_N (Z.to_N (z mod 256)) with
  | Some b => b
  | None => x00
  end.

(** [new Uint8Array(size)]: a [RangeError] for a negative length. *)
Definition new (size : Z) : option t :=
  if size <? 0 then None else Some (repeat x00 (Z.to_nat size)).

(** [data[i]]: [undefined] outside the array. *)
Definition get (data : t) (i : Z) : option Z :=
  if (i <? 0) || (Z.of_nat (length data) <=? i) then None
  else to_Z <$> data !! Z.to_nat i.

(** [data[i] = v]: ignored outside the array. *)
Definition set (data : t) (i : Z) (v : Z) : t :=
  if (i <? 0) || (Z.of_nat (length data) <=? i) then data
  else <[Z.to_nat i := of_Z v]> data.

End Uint8Array.

(** ** Memory: the two hooks of the concrete device *)

Module Memory.

Fixpoint localRead_loop (data : Uint8Array.t) (address : Z)
         (n : nat) (i : Z) (result : Z) : Z :=
  match n with
  | O => result
  | S n' =>
      localRead_loop data address n' (i + 1)
        (js.or result
           (js.shl (js.number (Uint8Array.get data (address + i))) (8 * i)))
  end.

Definition localRead (data : Uint8Array.t) (address size : Z) : Z :=
  localRead_loop data address (Z.to_nat size) 0 0.

Fixpoint localWrite_loop (data : Uint8Array.t) (address value : Z)
         (n : nat) (i : Z) : Uint8Array.t :=
  match n with
  | O => data
  | S n' =>
      localWrite_loop
        (Uint8Array.set data (address + i)
           (int32.unsignedSlice value (8 * i + 7) (8 * i)))
        address value n' (i + 1)
  end.

Definition localWrite (data : Uint8Array.t) (address size value : Z)
  : Uint8Array.t :=
  localWrite_loop data address value (Z.to_nat size) 0.

End Memory.

(** ** bin.js: the decoded instruction *)

Module bin.

(** Modelled from the spec: [bin.js] is not part of the sources at hand.
    The tag [src1] selects ALU operand A. *)
Inductive src1_tag := src1_pc | src1_x1.

(** Modelled from the spec: [bin.js] is not part of the sources at hand.
    The tag [src2] selects ALU operand B. *)
Inductive src2_tag := src2_imm | src2_x2.

(** Modelled from the spec: [bin.js] is not part of the sources at hand.
    The ALU operations. *)
Inductive aluOp_tag :=
| alu_b | alu_add | alu_sll | alu_slt | alu_sltu | alu_xor
| alu_srl | alu_sra | alu_or | alu_and | alu_sub.

(** Modelled from the spec: [bin.js] is not part of the sources at hand.
    The branch conditions. *)
Inductive branch_tag := br_al | br_eq | br_ne | br_lt | br_ge | br_ltu | br_geu.

(** Modelled from the spec: [bin.js] is not part of the sources at hand.
    The register and memory updates; [wb_pc] is the tag ["pc+"]. *)
Inductive wbMem_tag :=
| wb_r | wb_pc | wb_lb | wb_lh | wb_lw | wb_lbu | wb_lhu
| wb_sb | wb_sh | wb_sw.

(** Modelled from the spec: [bin.js] is not part of the sources at hand.
    The record that the decoder returns: mnemonic, register indices,
    immediate and the control tags; a tag that an instruction does not
    have is [None]. *)
Record instr := {
  name : string;
  rd : Z; rs1 : Z; rs2 : Z;
  imm : Z;
  src1 : option src1_tag;
  src2 : option src2_tag;
  aluOp : option aluOp_tag;
  branch : option branch_tag;
  wbMem : option wbMem_tag
}.

(** [wbMem && (wbMem[0] === 'l' || wbMem[0] === 's')] *)
Definition is_load_store (w : option wbMem_tag) : bool :=
  match w with
  | Some (wb_lb | wb_lh | wb_lw | wb_lbu | wb_lhu | wb_sb | wb_sh | wb_sw) => true
  | _ => false
  end.

End bin.

(** ** Device subclasses that are not in the sources

    [Device] is an abstract base class.  A subclass other than [Memory]
    supplies the two hooks [localRead] and [localWrite] and may override
    [reset] and [irq]; it is given by its private state [S] and these four
    operations. *)

Class Peripheral (S : Type) := {
  p_localRead : S -> Z -> Z -> Z * S;
  p_localWrite : S -> Z -> Z -> Z -> S;
  p_reset : S -> S;
  p_irq : S -> bool
}.

(** ** class Device *)

Module Device.

(** The dynamic class of a device object and the state that class adds. *)
Inductive body (S : Type) :=
| Abstract
| MemoryData (data : Uint8Array.t)
| Subclass (s : S).
Arguments Abstract {S}.
Arguments MemoryData {S} data.
Arguments Subclass {S} s.

Record t (S : Type) := {
  size : Z;
  firstAddress : Z;
  lastAddress : Z;
  body_of : body S
}.
Arguments size {S} _.
Arguments firstAddress {S} _.
Arguments lastAddress {S} _.
Arguments body_of {S} _.

Section Methods.
Context {S : Type} `{!Peripheral S}.

(** The constructor of the base class, for a given dynamic class. *)
Definition new (firstAddress size : Z) (b : body S) : t S :=
  {| size := size;
     firstAddress := int32.unsigned firstAddress;
     lastAddress := int32.unsigned (firstAddress + size - 1);
     body_of := b |}.

Definition with_body (d : t S) (b : body S) : t S :=
  {| size := size d; firstAddress := firstAddress d;
     lastAddress := lastAddress d; body_of := b |}.

Definition reset (d : t S) : t S :=
  match body_of d with
  | Subclass s => with_body d (Subclass (p_reset s))
  | _ => d
  end.

Definition accepts (d : t S) (address size : Z) : bool :=
  (firstAddress d <=? address) &&
  (int32.unsigned (address + size - 1) <=? lastAddress d).

Definition localRead (d : t S) (address size : Z) : Z * t S :=
  match body_of d with
  | Abstract => (0, d)
  | MemoryData data => (Memory.localRead data address size, d)
  | Subclass s =>
      let (v, s') := p_localRead s address size in
      (v, with_body d (Subclass s'))
  end.

Definition localWrite (d : t S) (address size value : Z) : t S :=
  match body_of d with
  | Abstract => d
  | MemoryData data =>
      with_body d (MemoryData (Memory.localWrite data address size value))
  | Subclass s => with_body d (Subclass (p_localWrite s address size value))
  end.

Definition read (d : t S) (address size : Z) (signed : bool) : Z * t S :=
  let (raw, d') :=
    localRead d (int32.unsigned (address - firstAddress d)) size in
  (if signed then int32.signedSlice raw (size * 8 - 1) 0
   else int32.unsignedSlice raw (size * 8 - 1) 0, d').

Definition write (d : t S) (address size value : Z) : t S :=
  localWrite d (int32.unsigned (address - firstAddress d)) size value.

Definition irq (d : t S) : bool :=
  match body_of d with
  | Subclass s => p_irq s
  | _ => false
  end.

End Methods.

End Device.

(** [new Memory(firstAddress, size)] *)
Definition Memory_new {S : Type} (firstAddress size : Z) : option (Device.t S) :=
  data ← Uint8Array.new size;
  Some (Device.new firstAddress size (Device.MemoryData data)).

(** ** class Bus *)

Module Bus.

(** [store] holds the device objects, [devices] is the array of
    references to them that the bus keeps. *)
Record t (S : Type) := {
  store : list (Device.t S);
  devices : list nat;
  error : bool
}.
Arguments store {S} _.
Arguments devices {S} _.
Arguments error {S} _.

Section Methods.
Context {S : Type} `{!Peripheral S}.

Definition new : t S := {| store := []; devices := []; error := false |}.

(** Evaluation of a [new] expression that yields a device object. *)
Definition alloc (b : t S) (d : Device.t S) : nat * t S :=
  (length (store b),
   {| store := store b ++ [d]; devices := devices b; error := error b |}).

Definition addDevice (b : t S) (device : nat) : t S :=
  {| store := store b; devices := devices b ++ [device];
     error := error b |}.

Definition reset_loop (st : list (Device.t S)) (refs : list nat)
  : list (Device.t S) :=
  fold_left (fun st r =>
               match st !! r with
               | Some d => <[r := Device.reset d]> st
               | None => st
               end) refs st.

Definition reset (b : t S) : t S :=
  {| store := reset_loop (store b) (devices b);
     devices := devices b; error := error b |}.

Definition accepts_ref (st : list (Device.t S)) (address size : Z)
           (r : nat) : bool :=
  match st !! r with
  | Some d => Device.accepts d address size
  | None => false
  end.

Definition getDevices (b : t S) (address size : Z) : list nat :=
  let address := int32.unsigned address in
  List.filter (accepts_ref (store b) address size) (devices b).

Definition read (b : t S) (address size : Z) (signed : bool) : Z * t S :=
  let address := int32.unsigned address in
  let devs := getDevices b address size in
  let err := Nat.eqb (length devs) 0 in
  if err then
    (0, {| store := store b; devices := devices b; error := err |})
  else
    match devs !! 0%nat with
    | Some r =>
        match store b !! r with
        | Some d =>
            let (v, d') := Device.read d address size signed in
            (v, {| store := <[r := d']> (store b);
                   devices := devices b; error := err |})
        | None =>
            (0, {| store := store b; devices := devices b; error := err |})
        end
    | None =>
        (0, {| store := store b; devices := devices b; error := err |})
    end.

Definition write_loop (st : list (Device.t S)) (refs : list nat)
           (address size value : Z) : list (Device.t S) :=
  fold_left (fun st r =>
               match st !! r with
               | Some d => <[r := Device.write d address size value]> st
               | None => st
               end) refs st.

Definition write (b : t S) (address size value : Z) : t S :=
  let devs := getDevices b address size in
  let err := Nat.eqb (length devs) 0 in
  {| store := write_loop (store b) devs address size value;
     devices := devices b; error := err |}.

Definition irq (b : t S) : bool :=
  existsb (fun r =>
             match store b !! r with
             | Some d => Device.irq d
             | None => false
             end) (devices b).

End Methods.

End Bus.

(** ** The record returned by [step] *)

Module Trace.

Record t := {
  instr : bin.instr;
  pc : Z;
  incPc : Z;
  irq : bool;
  x1 : Z;
  x2 : Z;
  a : Z;
  b : Z;
  r : Z;
  l : Z;
  taken : bool;
  fetchError : bool;
  loadStoreError : bool
}.

End Trace.

(** ** class Virgule *)

Module Virgule.

(** The fields of the core.  [irqState] is never assigned by the
    constructor or by [reset]: it is [None] (undefined) until the first
    interrupt entry or the first [mret].  The field [bus] is a reference to
    the bus object, whose state is threaded next to the core's. *)
Record t := {
  x : list Z;
  pc : Z;
  mepc : Z;
  irqState : option bool
}.

Definition reset_loop (x : list Z) : list Z :=
  fold_left (fun x i => <[i := 0]> x) (seq 0 (length x)) x.

Definition reset (c : t) : t :=
  {| x := reset_loop (x c); pc := 0; mepc := 0; irqState := irqState c |}.

(** [new Virgule(nx, bus)]: the [nx] slots of the fresh array are all
    overwritten by [reset] before anything reads them. *)
Definition new (nx : nat) : t :=
  reset {| x := repeat 0 nx; pc := 0; mepc := 0; irqState := None |}.

Definition setX (c : t) (index value : Z) : t :=
  if (0 <? index) && (index <? Z.of_nat (length (x c))) then
    {| x := <[Z.to_nat index := int32.signed value]> (x c);
       pc := pc c; mepc := mepc c; irqState := irqState c |}
  else c.

Definition getX (c : t) (index : Z) : Z :=
  if (0 <? index) && (index <? Z.of_nat (length (x c))) then
    default 0 (x c !! Z.to_nat index)
  else 0.

Definition setPc (c : t) (value : Z) : t :=
  {| x := x c; pc := int32.unsigned (js.and value (js.not 3));
     mepc := mepc c; irqState := irqState c |}.

(** The ALU, the branch unit and the two operand selectors of [step]. *)
Definition operandA (i : bin.instr) (pc x1 : Z) : Z :=
  match bin.src1 i with
  | Some bin.src1_pc => pc
  | Some bin.src1_x1 => x1
  | None => 0
  end.

Definition operandB (i : bin.instr) (x2 : Z) : Z :=
  match bin.src2 i with
  | Some bin.src2_imm => bin.imm i
  | Some bin.src2_x2 => x2
  | None => 0
  end.

Definition alu (op : option bin.aluOp_tag) (a b : Z) : Z :=
  match op with
  | Some bin.alu_b => b
  | Some bin.alu_add => int32.signed (a + b)
  | Some bin.alu_sll => js.shl a b
  | Some bin.alu_slt => if int32.signed a <? int32.signed b then 1 else 0
  | Some bin.alu_sltu => if int32.unsigned a <? int32.unsigned b then 1 else 0
  | Some bin.alu_xor => js.xor a b
  | Some bin.alu_srl => js.shr a b
  | Some bin.alu_sra => js.sar a b
  | Some bin.alu_or => js.or a b
  | Some bin.alu_and => js.and a b
  | Some bin.alu_sub => int32.signed (a - b)
  | None => 0
  end.

Definition branch_taken (br : option bin.branch_tag) (x1 x2 : Z) : bool :=
  match br with
  | Some bin.br_al => true
  | Some bin.br_eq => x1 =? x2
  | Some bin.br_ne => negb (x1 =? x2)
  | Some bin.br_lt => x1 <? x2
  | Some bin.br_ge => x1 >=? x2
  | Some bin.br_ltu => int32.unsigned x1 <? int32.unsigned x2
  | Some bin.br_geu => int32.unsigned x1 >=? int32.unsigned x2
  | None => false
  end.

Section Step.
Context {S : Type} `{!Peripheral S}.
(** The decoder [bin.fromWord], which is not part of the sources at hand. *)
Variable fromWord : Z -> bin.instr.

(** Register/memory update: the core, the bus and the loaded value [l]. *)
Definition writeback (c : t) (bus : Bus.t S) (i : bin.instr)
           (r incPc x2 : Z) : t * Bus.t S * Z :=
  let load size signed :=
    let (l, bus') := Bus.read bus r size signed in
    (setX c (bin.rd i) l, bus', l) in
  match bin.wbMem i with
  | Some bin.wb_r => (setX c (bin.rd i) r, bus, 0)
  | Some bin.wb_pc => (setX c (bin.rd i) incPc, bus, 0)
  | Some bin.wb_lb => load 1 true
  | Some bin.wb_lh => load 2 true
  | Some bin.wb_lw => load 4 true
  | Some bin.wb_lbu => load 1 false
  | Some bin.wb_lhu => load 2 false
  | Some bin.wb_sb => (c, Bus.write bus r 1 x2, 0)
  | Some bin.wb_sh => (c, Bus.write bus r 2 x2, 0)
  | Some bin.wb_sw => (c, Bus.write bus r 4 x2, 0)
  | None => (c, bus, 0)
  end.

(** Program counter update. *)
Definition update_pc (c : t) (i : bin.instr) (enteringIrq taken : bool)
           (r incPc : Z) : t :=
  if enteringIrq then
    let c1 := setPc c 4 in
    {| x := x c1; pc := pc c1; mepc := if taken then r else incPc;
       irqState := Some true |}
  else if String.eqb (bin.name i) "mret" then
    let c1 := setPc c (mepc c) in
    {| x := x c1; pc := pc c1; mepc := mepc c1; irqState := Some false |}
  else if taken then setPc c r
  else setPc c incPc.

Definition step (c : t) (bus : Bus.t S) : Trace.t * t * Bus.t S :=
  let savedPc := pc c in
  let incPc := pc c + 4 in
  let irq := Bus.irq bus in
  (* Fetch *)
  let (word, bus1) := Bus.read bus (pc c) 4 false in
  let fetchError := Bus.error bus1 in
  (* Decode *)
  let instr := fromWord word in
  (* Execute *)
  let x1 := getX c (bin.rs1 instr) in
  let x2 := getX c (bin.rs2 instr) in
  let a := operandA instr (pc c) x1 in
  let b := operandB instr x2 in
  let r := alu (bin.aluOp instr) a b in
  let taken := branch_taken (bin.branch instr) x1 x2 in
  let '(c2, bus2, l) := writeback c bus1 instr r incPc x2 in
  let loadStoreError :=
    bin.is_load_store (bin.wbMem instr) && Bus.error bus2 in
  let enteringIrq := irq && negb (js.truthy (irqState c2)) in
  let c3 := update_pc c2 instr enteringIrq taken r incPc in
  ({| Trace.instr := instr; Trace.pc := savedPc; Trace.incPc := incPc;
      Trace.irq := enteringIrq; Trace.x1 := x1; Trace.x2 := x2;
      Trace.a := a; Trace.b := b; Trace.r := r; Trace.l := l;
      Trace.taken := taken; Trace.fetchError := fetchError;
      Trace.loadStoreError := loadStoreError |},
   c3, bus2).

(** A host drives the core with a sequence of calls. *)
Inductive call := Step | Reset.

Definition exec (k : call) (m : t * Bus.t S) : t * Bus.t S :=
  match k with
  | Step => let '(_, c, bus) := step (fst m) (snd m) in (c, bus)
  | Reset => (reset (fst m), snd m)
  end.

Definition run (ks : list call) (m : t * Bus.t S) : t * Bus.t S :=
  fold_left (fun m k => exec k m) ks m.

End Step.

End Virgule.

(** ** Concrete machines used to exercise the model *)

Module Fixture.

(** A one-bit interrupt source, the simplest device outside the sources:
    its state is the pending flag, a read returns it and a write of a
    non-zero value raises it. *)
#[global] Instance irq_line : Peripheral bool :=
  {| p_localRead s _ _ := (Z.b2z s, s);
     p_localWrite _ _ _ v := negb (v =? 0);
     p_reset _ := false;
     p_irq s := s |}.

Definition no_tags (name : string) : bin.instr :=
  {| bin.name := name; bin.rd := 0; bin.rs1 := 0; bin.rs2 := 0; bin.imm := 0;
     bin.src1 := None; bin.src2 := None; bin.aluOp := None;
     bin.branch := None; bin.wbMem := None |}.

(** A decoder for the handful of encodings that the examples use:
    [mret], [jalr x0, 6(x0)], [addi x1, x0, 5], [lb x1, 8(x0)],
    [lbu x2, 8(x0)] and [lw x1, -2(x0)]. *)
Definition decode (word : Z) : bin.instr :=
  if word =? 0x30200073 then no_tags "mret"
  else if word =? 0x00600067 then
    {| bin.name := "jalr"; bin.rd := 0; bin.rs1 := 0; bin.rs2 := 6;
       bin.imm := 6;
       bin.src1 := Some bin.src1_x1; bin.src2 := Some bin.src2_imm;
       bin.aluOp := Some bin.alu_add; bin.branch := Some bin.br_al;
       bin.wbMem := Some bin.wb_pc |}
  else if word =? 0x00500093 then
    {| bin.name := "addi"; bin.rd := 1; bin.rs1 := 0; bin.rs2 := 5;
       bin.imm := 5;
       bin.src1 := Some bin.src1_x1; bin.src2 := Some bin.src2_imm;
       bin.aluOp := Some bin.alu_add; bin.branch := None;
       bin.wbMem := Some bin.wb_r |}
  else if word =? 0x00800083 then
    {| bin.name := "lb"; bin.rd := 1; bin.rs1 := 0; bin.rs2 := 8;
       bin.imm := 8;
       bin.src1 := Some bin.src1_x1; bin.src2 := Some bin.src2_imm;
       bin.aluOp := Some bin.alu_add; bin.branch := None;
       bin.wbMem := Some bin.wb_lb |}
  else if word =? 0x00804103 then
    {| bin.name := "lbu"; bin.rd := 2; bin.rs1 := 0; bin.rs2 := 8;
       bin.imm := 8;
       bin.src1 := Some bin.src1_x1; bin.src2 := Some bin.src2_imm;
       bin.aluOp := Some bin.alu_add; bin.branch := None;
       bin.wbMem := Some bin.wb_lbu |}
  else if word =? 0xffe02083 then
    {| bin.name := "lw"; bin.rd := 1; bin.rs1 := 0; bin.rs2 := 30;
       bin.imm := -2;
       bin.src1 := Some bin.src1_x1; bin.src2 := Some bin.src2_imm;
       bin.aluOp := Some bin.alu_add; bin.branch := None;
       bin.wbMem := Some bin.wb_lw |}
  else no_tags "invalid".

(** [bus.addDevice(new ...)] *)
Definition attach {S : Type} (d : Device.t S) (b : Bus.t S) : Bus.t S :=
  let (r, b') := Bus.alloc b d in Bus.addDevice b' r.

Definition attach_memory {S : Type} (firstAddress size : Z) (b : Bus.t S)
  : Bus.t S :=
  match Memory_new firstAddress size with
  | Some m => attach m b
  | None => b
  end.

(** Sixteen bytes of memory at address 0 and an interrupt line at 0x100. *)
Definition board (pending : bool) : Bus.t bool :=
  attach (Device.new 0x100 4 (Device.Subclass pending))
    (attach_memory 0 16 Bus.new).

(** The same board with [jalr x0, 6(x0)] at address 0 and [mret] at
    address 4, loaded through the bus. *)
Definition program (pending : bool) : Bus.t bool :=
  Bus.write (Bus.write (board pending) 0 4 0x00600067) 4 4 0x30200073.

(** A memory at the top of the address space. *)
Definition top_memory : Device.t bool :=
  Device.new 0xFFFFFF00 0x100 (Device.MemoryData (repeat x00 256)).

(** A bus on which an instance of the base class is registered before a
    memory over the same addresses. *)
Definition shadowed : Bus.t bool :=
  attach_memory 0 16 (attach (Device.new 0 16 Device.Abstract) Bus.new).

(** A bus that holds a memory of no bytes at address 0. *)
Definition empty_memory : Bus.t bool := attach_memory 0 0 Bus.new.

(** Two memories over overlapping addresses. *)
Definition mirrored : Bus.t bool :=
  attach_memory 8 16 (attach_memory 0 16 Bus.new).

(** The board with [lb x1, 8(x0)] at address 0, [lbu x2, 8(x0)] at
    address 4 and the byte 0xFF stored at address 8. *)
Definition loads : Bus.t bool :=
  Bus.write
    (Bus.write (Bus.write (board false) 0 4 0x00800083) 4 4 0x00804103)
    8 1 0xFF.

(** The sixteen bytes of memory at address 0, as a device object. *)
Definition ram : Device.t bool :=
  Device.new 0 16 (Device.MemoryData (repeat x00 16)).

(** The board with [lw x1, -2(x0)] at address 0. *)
Definition wrapping_load : Bus.t bool :=
  Bus.write (board false) 0 4 0xffe02083.

End Fixture.

(** ** Reference notions the properties are stated against *)

Module Spec.

(** The whole interval [address, address + size - 1] lies within
    [firstAddress, lastAddress]. *)
Definition interval_within {S : Type} (d : Device.t S) (address size : Z)
  : Prop :=
  forall a : Z,
    address <= a <= address + size - 1 ->
    Device.firstAddress d <= a <= Device.lastAddress d.

(** Little-endian composition: the sum of [byte i * 2^(8 i)]. *)
Fixpoint little_endian (bytes : list Z) : Z :=
  match bytes with
  | [] => 0
  | b :: bs => b + 256 * little_endian bs
  end.

(** The [size] stored bytes from [offset] on, as numbers. *)
Definition stored (data : Uint8Array.t) (offset size : Z) : list Z :=
  Uint8Array.to_Z <$> take (Z.to_nat size) (drop (Z.to_nat offset) data).

(** The first registered device that accepts an access. *)
Definition first_accepting {S : Type} (b : Bus.t S) (address size : Z)
  : option nat :=
  List.find (Bus.accepts_ref (Bus.store b) address size)
    (Bus.devices b).

(** A bus that differs in its error flag only. *)
Definition with_error {S : Type} (b : Bus.t S) (e : bool) : Bus.t S :=
  {| Bus.store := Bus.store b; Bus.devices := Bus.devices b;
     Bus.error := e |}.

(** The states of an object made by [new Memory(first, size)]: the address
    range is the one the constructor computes and the array has [size]
    elements. *)
Definition memory_object {S : Type} (d : Device.t S)
           (data : Uint8Array.t) : Prop :=
  exists first : Z,
    d = Device.new first (Device.size d) (Device.MemoryData data) /\
    length data = Z.to_nat (Device.size d).

(** The states a memory object goes through keep its header and the
    length of its array. *)
Definition same_memory {S : Type} (d : Device.t S) (data : Uint8Array.t)
           (d' : Device.t S) : Prop :=
  exists data', d' = Device.with_body d (Device.MemoryData data') /\
                length data' = length data.

(** A value of the signed 32-bit range. *)
Definition is_int32 (z : Z) : Prop := -2147483648 <= z < 2147483648.

(** The object is an instance of [Device] itself or of [Memory], the two
    classes whose [irq] is the one of the base class. *)
Definition plain_device {S : Type} (d : Device.t S) : Prop :=
  match Device.body_of d with
  | Device.Subclass _ => False
  | _ => True
  end.


(** No registered device accepts the access. *)
Definition unmapped {S : Type} (b : Bus.t S) (address size : Z) : bool :=
  match first_accepting b address size with
  | None => true
  | Some _ => false
  end.

End Spec.

(** * Properties *)

(** ** 32-bit arithmetic *)

Lemma unsigned_range (z : Z) : 0 <= int32.unsigned z < 4294967296.
Proof. unfold int32.unsigned, js.ToUint32. apply Z.mod_pos_bound. lia. Qed.

Lemma signed_range (z : Z) : -2147483648 <= int32.signed z < 2147483648.
Proof.
  unfold int32.signed, js.ToInt32.
  pose proof (Z.mod_pos_bound (z + 2147483648) 4294967296). lia.
Qed.

Lemma unsigned_small (z : Z) : 0 <= z < 4294967296 -> int32.unsigned z = z.
Proof. intros H. unfold int32.unsigned, js.ToUint32. now apply Z.mod_small. Qed.

Lemma signed_small (z : Z) :
  -2147483648 <= z < 2147483648 -> int32.signed z = z.
Proof.
  intros H. unfold int32.signed, js.ToInt32.
  rewrite Z.mod_small by lia. lia.
Qed.

Lemma unsigned_idem (z : Z) : int32.unsigned (int32.unsigned z) = int32.unsigned z.
Proof. apply unsigned_small, unsigned_range. Qed.

Lemma unsigned_sub_unsigned (a f : Z) :
  int32.unsigned (int32.unsigned a - f) = int32.unsigned (a - f).
Proof.
  unfold int32.unsigned, js.ToUint32.
  rewrite Zminus_mod_idemp_l. reflexivity.
Qed.

(** Masking with [~3] clears the two low bits. *)
Lemma and_not3 (v : Z) : js.and v (js.not 3) = 4 * (js.ToInt32 v / 4).
Proof.
  unfold js.and, js.not.
  change (js.ToInt32 (Z.lnot (js.ToInt32 3))) with (Z.lnot (Z.ones 2)).
  rewrite <- Z.ldiff_land, Z.ldiff_ones_r by lia.
  rewrite Z.shiftr_div_pow2, Z.shiftl_mul_pow2 by lia.
  change (2 ^ 2) with 4. lia.
Qed.

Lemma aligned_word (v : Z) :
  let p := int32.unsigned (js.and v (js.not 3)) in
  0 <= p < 4294967296 /\ p mod 4 = 0.
Proof.
  cbv zeta. split; [apply unsigned_range|].
  rewrite and_not3. unfold int32.unsigned, js.ToUint32.
  generalize (js.ToInt32 v / 4). intros q.
  Z.to_euclidean_division_equations. lia.
Qed.

(** A word that is already an aligned unsigned address is kept as it is. *)
Lemma aligned_word_id (v : Z) :
  0 <= v < 4294967296 -> v mod 4 = 0 ->
  int32.unsigned (js.and v (js.not 3)) = v.
Proof.
  intros Hr Hm. rewrite and_not3. unfold int32.unsigned, js.ToUint32, js.ToInt32.
  Z.to_euclidean_division_equations. lia.
Qed.

(** ** The register file *)

Lemma reset_loop_zero (x : list Z) :
  Virgule.reset_loop x = repeat 0 (length x).
Proof.
  unfold Virgule.reset_loop.
  assert (G : forall n (l : list Z) (k : nat),
             length l = n ->
             fold_left (fun x i => <[i := 0]> x) (seq k n) (repeat 0 k ++ l)
             = repeat 0 (k + n)).
  { induction n as [|n IH]; intros l k Hl.
    - destruct l; [|discriminate]. simpl.
      now rewrite app_nil_r, Nat.add_0_r.
    - destruct l as [|z l]; [discriminate|]. simpl.
      replace (<[k:=0]> (repeat 0 k ++ z :: l))
        with (repeat 0 (Datatypes.S k) ++ l).
      + rewrite IH by (simpl in Hl; lia). f_equal. lia.
      + rewrite insert_app_r_alt by (rewrite repeat_length; lia).
        rewrite repeat_length, Nat.sub_diag.
        change (repeat 0 (Datatypes.S k)) with (0 :: repeat 0 k).
        rewrite repeat_cons, <- app_assoc. reflexivity. }
  apply (G (length x) x 0%nat eq_refl).
Qed.

Lemma setX_frame (c : Virgule.t) (i v : Z) :
  Virgule.pc (Virgule.setX c i v) = Virgule.pc c /\
  Virgule.mepc (Virgule.setX c i v) = Virgule.mepc c /\
  Virgule.irqState (Virgule.setX c i v) = Virgule.irqState c /\
  length (Virgule.x (Virgule.setX c i v)) = length (Virgule.x c).
Proof.
  unfold Virgule.setX.
  destruct ((0 <? i) && (i <? Z.of_nat (length (Virgule.x c)))); simpl;
    rewrite ?length_insert; auto.
Qed.

Lemma getX_zero (c : Virgule.t) : Virgule.getX c 0 = 0.
Proof. reflexivity. Qed.

Section CoreProperties.
Context {S : Type} `{!Peripheral S}.
Variable fromWord : Z -> bin.instr.

Lemma writeback_frame (c : Virgule.t) (bus : Bus.t S) (i : bin.instr)
      (r incPc x2 : Z) :
  let c2 := fst (fst (Virgule.writeback c bus i r incPc x2)) in
  Virgule.pc c2 = Virgule.pc c /\
  Virgule.mepc c2 = Virgule.mepc c /\
  Virgule.irqState c2 = Virgule.irqState c /\
  length (Virgule.x c2) = length (Virgule.x c).
Proof.
  unfold Virgule.writeback.
  destruct (bin.wbMem i) as [[]|]; simpl;
    repeat match goal with
           | |- context [Bus.read ?b ?a ?s ?g] => destruct (Bus.read b a s g)
           end; simpl; auto using setX_frame.
Qed.

(** The control-flow part of [step] in one equation: the final core is
    [update_pc] applied to a core that differs from the initial one in
    its registers only. *)
Lemma step_control (c : Virgule.t) (bus : Bus.t S) :
  exists c2 : Virgule.t,
    let '(tr, c', _) := Virgule.step fromWord c bus in
    c' = Virgule.update_pc c2 (Trace.instr tr) (Trace.irq tr)
           (Trace.taken tr) (Trace.r tr) (Trace.incPc tr) /\
    Trace.irq tr = Bus.irq bus && negb (js.truthy (Virgule.irqState c)) /\
    Trace.incPc tr = Virgule.pc c + 4 /\
    Virgule.pc c2 = Virgule.pc c /\
    Virgule.mepc c2 = Virgule.mepc c /\
    Virgule.irqState c2 = Virgule.irqState c /\
    length (Virgule.x c2) = length (Virgule.x c).
Proof.
  unfold Virgule.step.
  destruct (Bus.read bus (Virgule.pc c) 4 false) as [word bus1].
  match goal with
  | |- context [Virgule.writeback ?c ?b ?i ?r ?p ?v] =>
      pose proof (writeback_frame c b i r p v) as F;
      destruct (Virgule.writeback c b i r p v) as [[c2 bus2] l]
  end.
  simpl in F. destruct F as (F1 & F2 & F3 & F4).
  exists c2. simpl. rewrite F3. repeat split; assumption || reflexivity.
Qed.

Lemma update_pc_aligned (c : Virgule.t) (i : bin.instr) (e t : bool) (r p : Z) :
  let c' := Virgule.update_pc c i e t r p in
  0 <= Virgule.pc c' < 4294967296 /\ Virgule.pc c' mod 4 = 0.
Proof.
  unfold Virgule.update_pc.
  destruct e; [|destruct (String.eqb _ _); [|destruct t]]; simpl;
    apply aligned_word.
Qed.

End CoreProperties.

(** ** The core: interrupt entry, interrupt return, alignment, registers *)

Section CoreTheorems.
Context {S : Type} `{!Peripheral S}.
Variable fromWord : Z -> bin.instr.

(** C1.  When [bus.irq()] is sampled true at the start of a cycle and
    [irqState] is not set, the cycle is an interrupt entry whatever the
    decoded instruction is ([mret], a taken branch or anything else): it
    ends with [pc = 4], with [mepc] equal to the ALU result [r] if the
    branch was taken and to the pre-cycle [pc + 4] otherwise, and with
    [irqState = true]. *)
Theorem step_interrupt_entry (c : Virgule.t) (bus : Bus.t S) :
  Bus.irq bus = true ->
  js.truthy (Virgule.irqState c) = false ->
  let '(tr, c', _) := Virgule.step fromWord c bus in
  Trace.irq tr = true /\
  Virgule.pc c' = 4 /\
  Virgule.mepc c' =
    (if Trace.taken tr then Trace.r tr else Virgule.pc c + 4) /\
  Virgule.irqState c' = Some true.
Proof.
  intros Hirq Hst.
  destruct (step_control fromWord c bus) as [c2 H].
  destruct (Virgule.step fromWord c bus) as [[tr c'] bus'].
  destruct H as (-> & He & Hinc & _).
  rewrite Hirq, Hst in He. simpl in He.
  rewrite He, Hinc. unfold Virgule.update_pc. simpl. auto.
Qed.

(** C2 (amended).  In a cycle that is not an interrupt entry ([irq] false,
    or [irqState] already true) the trace reports no entry and [mepc] is
    left as it was.  If the decoded mnemonic is ["mret"], the cycle ends
    with [irqState = false] and with [pc] equal to the saved [mepc] taken
    through [setPc], that is reduced to an unsigned 32-bit word with its two
    low bits cleared; this is [mepc] itself when [mepc] is an unsigned
    32-bit multiple of 4.  Otherwise [irqState] is unchanged and [pc] is the
    branch target or [pc + 4], again through [setPc]: [pc] is not forced to
    the trap vector. *)
Theorem step_without_entry (c : Virgule.t) (bus : Bus.t S) :
  Bus.irq bus = false \/ js.truthy (Virgule.irqState c) = true ->
  let '(tr, c', _) := Virgule.step fromWord c bus in
  Trace.irq tr = false /\
  Virgule.mepc c' = Virgule.mepc c /\
  (bin.name (Trace.instr tr) = "mret"%string ->
   Virgule.pc c' = int32.unsigned (js.and (Virgule.mepc c) (js.not 3)) /\
   (0 <= Virgule.mepc c < 4294967296 -> Virgule.mepc c mod 4 = 0 ->
    Virgule.pc c' = Virgule.mepc c) /\
   Virgule.irqState c' = Some false) /\
  (bin.name (Trace.instr tr) <> "mret"%string ->
   Virgule.pc c' =
     int32.unsigned
       (js.and (if Trace.taken tr then Trace.r tr else Virgule.pc c + 4)
          (js.not 3)) /\
   Virgule.irqState c' = Virgule.irqState c).
Proof.
  intros Hno.
  destruct (step_control fromWord c bus) as [c2 H].
  destruct (Virgule.step fromWord c bus) as [[tr c'] bus'].
  destruct H as (-> & He & Hinc & Hpc & Hmepc & Hst & _).
  assert (E : Trace.irq tr = false).
  { rewrite He. destruct Hno as [-> | ->]; [reflexivity|].
    now rewrite andb_false_r. }
  rewrite E, Hinc. unfold Virgule.update_pc.
  split; [reflexivity|].
  destruct (String.eqb_spec (bin.name (Trace.instr tr)) "mret") as [Hm|Hm].
  - simpl. rewrite Hmepc. repeat split; try reflexivity; try tauto.
    intros Hr Ha. now apply aligned_word_id.
  - split; [now destruct (Trace.taken tr)|].
    split; [tauto|]. intros _.
    destruct (Trace.taken tr); simpl; auto.
Qed.

(** C3.  After every call of [step] or [reset], whatever calls came before
    and whatever the state was, [pc] is an unsigned 32-bit value and a
    multiple of 4. *)
Theorem pc_aligned_after_every_call
        (ks : list Virgule.call) (k : Virgule.call) (m : Virgule.t * Bus.t S) :
  let c' := fst (Virgule.exec fromWord k (Virgule.run fromWord ks m)) in
  0 <= Virgule.pc c' < 4294967296 /\ Virgule.pc c' mod 4 = 0.
Proof.
  generalize (Virgule.run fromWord ks m). intros [c bus].
  destruct k; simpl.
  - destruct (step_control fromWord c bus) as [c2 H].
    destruct (Virgule.step fromWord c bus) as [[tr c'] bus'].
    destruct H as (-> & _). simpl. apply update_pc_aligned.
  - split; [lia | reflexivity].
Qed.

(** C4.  For an index that is 0 or lies outside [1, length of the register
    file), [setX] leaves the core (hence the register file) unchanged and
    [getX] returns 0; and [getX(0)] is 0 after every sequence of calls. *)
Theorem register_zero_hardwired (c : Virgule.t) (i v : Z) :
  i = 0 \/ ~ (1 <= i < Z.of_nat (length (Virgule.x c))) ->
  Virgule.setX c i v = c /\
  Virgule.getX c i = 0 /\
  forall (ks : list Virgule.call) (bus : Bus.t S),
    Virgule.getX (fst (Virgule.run fromWord ks (c, bus))) 0 = 0.
Proof.
  intros Hi.
  assert (E : (0 <? i) && (i <? Z.of_nat (length (Virgule.x c))) = false).
  { destruct (Z.ltb_spec 0 i), (Z.ltb_spec i (Z.of_nat (length (Virgule.x c))));
      simpl; auto; lia. }
  unfold Virgule.setX, Virgule.getX. rewrite E.
  repeat split; reflexivity.
Qed.

(** C10.  [reset] zeroes every register, sets [pc] and [mepc] to 0 and
    touches nothing else: [irqState] and the bus are as before.  Hence a
    core that is reset while [irqState] is true is still in handler state,
    and the step that follows is not an interrupt entry even if the bus
    requests one: the trace reports no entry and [mepc] stays 0. *)
Theorem reset_keeps_irqState (c : Virgule.t) (bus : Bus.t S) :
  (Virgule.x (Virgule.reset c) = repeat 0 (length (Virgule.x c)) /\
   Virgule.pc (Virgule.reset c) = 0 /\
   Virgule.mepc (Virgule.reset c) = 0 /\
   Virgule.irqState (Virgule.reset c) = Virgule.irqState c /\
   Virgule.exec fromWord Virgule.Reset (c, bus) = (Virgule.reset c, bus)) /\
  (Virgule.irqState c = Some true ->
   Bus.irq bus = true ->
   let '(tr, c', _) := Virgule.step fromWord (Virgule.reset c) bus in
   Trace.irq tr = false /\
   Virgule.mepc c' = 0 /\
   (bin.name (Trace.instr tr) <> "mret"%string ->
    Virgule.irqState c' = Some true)).
Proof.
  split.
  - simpl. rewrite reset_loop_zero. repeat split; reflexivity.
  - intros Hst Hirq.
    destruct (step_control fromWord (Virgule.reset c) bus) as [c2 H].
    destruct (Virgule.step fromWord (Virgule.reset c) bus) as [[tr c'] bus'].
    destruct H as (-> & He & _ & _ & Hmepc & Hst2 & _).
    simpl in He, Hmepc, Hst2. rewrite Hst in He, Hst2.
    rewrite andb_false_r in He. rewrite He.
    unfold Virgule.update_pc.
    destruct (String.eqb_spec (bin.name (Trace.instr tr)) "mret") as [Hm|Hm].
    + simpl. rewrite Hmepc. repeat split; tauto.
    + destruct (Trace.taken tr); simpl; rewrite Hmepc, Hst2;
        repeat split; reflexivity.
Qed.

End CoreTheorems.

(** *** Concrete runs

    The board of [Fixture.program] holds [jalr x0, 6(x0)] at address 0 and
    [mret] at address 4, and its interrupt line is raised.  The first step
    is an interrupt entry in the middle of a taken jump to address 6; the
    second step executes [mret] inside the handler. *)

Lemma step_interrupt_entry_witness :
  Bus.irq (Fixture.program true) = true /\
  js.truthy (Virgule.irqState (Virgule.new 4)) = false /\
  let '(tr, c', _) :=
    Virgule.step Fixture.decode (Virgule.new 4) (Fixture.program true) in
  Trace.irq tr = true /\
  Virgule.pc c' = 4 /\
  Virgule.mepc c' =
    (if Trace.taken tr then Trace.r tr else Virgule.pc (Virgule.new 4) + 4) /\
  Virgule.irqState c' = Some true.
Proof.
  split; [reflexivity|]. split; [reflexivity|].
  apply (step_interrupt_entry Fixture.decode (Virgule.new 4)
           (Fixture.program true)); reflexivity.
Defined.

(** The state of the machine after the interrupted jump. *)
Lemma in_handler_state :
  Virgule.run Fixture.decode [Virgule.Step]
    (Virgule.new 4, Fixture.program true)
  = ({| Virgule.x := [0; 0; 0; 0]; Virgule.pc := 4; Virgule.mepc := 6;
        Virgule.irqState := Some true |},
     Fixture.program true).
Proof. vm_compute. reflexivity. Qed.

(** C2 as stated fails: the jump to address 6 was interrupted, so [mepc]
    is 6; the [mret] that follows, executed in the handler with the
    interrupt still requested, ends with [pc = 4], which is not the saved
    [mepc]. *)
Lemma step_mret_counterexample :
  let m := Virgule.run Fixture.decode [Virgule.Step]
             (Virgule.new 4, Fixture.program true) in
  let '(tr, c', _) := Virgule.step Fixture.decode (fst m) (snd m) in
  bin.name (Trace.instr tr) = "mret"%string /\
  js.truthy (Virgule.irqState (fst m)) = true /\
  Virgule.irqState c' = Some false /\
  Virgule.mepc (fst m) = 6 /\
  Virgule.pc c' = 4 /\
  Virgule.pc c' <> Virgule.mepc (fst m).
Proof. vm_compute. repeat split; discriminate. Qed.

Lemma step_without_entry_witness :
  let c := {| Virgule.x := [0; 0; 0; 0]; Virgule.pc := 4; Virgule.mepc := 6;
              Virgule.irqState := Some true |} in
  let '(tr, c', _) := Virgule.step Fixture.decode c (Fixture.program true) in
  Trace.irq tr = false /\
  Virgule.mepc c' = 6 /\
  bin.name (Trace.instr tr) = "mret"%string /\
  Virgule.pc c' = 4 /\
  Virgule.irqState c' = Some false.
Proof.
  cbv zeta.
  pose proof (step_without_entry Fixture.decode
                {| Virgule.x := [0; 0; 0; 0]; Virgule.pc := 4;
                   Virgule.mepc := 6; Virgule.irqState := Some true |}
                (Fixture.program true) (or_intror eq_refl)) as H.
  destruct (Virgule.step Fixture.decode _ (Fixture.program true))
    as [[tr c'] bus'] eqn:E.
  assert (N : bin.name (Trace.instr tr) = "mret"%string).
  { vm_compute in E. injection E as <- _ _. reflexivity. }
  destruct H as (H1 & H2 & H3 & _).
  destruct (H3 N) as (H4 & _ & H5).
  repeat split; assumption.
Defined.

Lemma register_zero_hardwired_witness :
  Virgule.setX (Virgule.new 4) 0 7 = Virgule.new 4 /\
  Virgule.getX (Virgule.new 4) 0 = 0 /\
  Virgule.getX
    (fst (Virgule.run Fixture.decode [Virgule.Step; Virgule.Step]
            (Virgule.new 4, Fixture.program true))) 0 = 0.
Proof.
  destruct (register_zero_hardwired Fixture.decode (Virgule.new 4) 0 7
              (or_introl eq_refl)) as (H1 & H2 & H3).
  split; [exact H1 | split; [exact H2 | apply H3]].
Defined.

Lemma reset_keeps_irqState_witness :
  let c := {| Virgule.x := [0; 5; 0; 0]; Virgule.pc := 4; Virgule.mepc := 6;
              Virgule.irqState := Some true |} in
  Virgule.irqState (Virgule.reset c) = Some true /\
  let '(tr, c', _) :=
    Virgule.step Fixture.decode (Virgule.reset c) (Fixture.program true) in
  Trace.irq tr = false /\
  Virgule.mepc c' = 0 /\
  (bin.name (Trace.instr tr) <> "mret"%string ->
   Virgule.irqState c' = Some true).
Proof.
  cbv zeta. split; [reflexivity|].
  apply (reset_keeps_irqState Fixture.decode
           {| Virgule.x := [0; 5; 0; 0]; Virgule.pc := 4; Virgule.mepc := 6;
              Virgule.irqState := Some true |} (Fixture.program true));
    reflexivity.
Defined.

(** ** Devices *)

(** C7, evaluated where the code departs from it.  The end of the access
    is reduced modulo 2^32 before it is compared, and the start is compared
    with [firstAddress] only.  The sixteen bytes of memory at
    [0, 15] therefore accept the 4-byte access at 0xFFFFFFFE, which starts
    far above the device and runs past the end of the address space; the
    read then looks outside the array and returns 0. *)
Lemma accepts_wraps :
  Memory_new 0 16 = Some Fixture.ram /\
  Device.firstAddress Fixture.ram = 0 /\
  Device.lastAddress Fixture.ram = 15 /\
  Device.accepts Fixture.ram 0xFFFFFFFE 4 = true /\
  ~ Spec.interval_within Fixture.ram 0xFFFFFFFE 4 /\
  fst (Device.read Fixture.ram 0xFFFFFFFE 4 true) = 0.
Proof.
  repeat split; try reflexivity.
  intros H. specialize (H 0xFFFFFFFE).
  change (Device.lastAddress Fixture.ram) with 15 in H. lia.
Qed.

(** Away from the end of the address space the test is the intended one:
    for an access of at least one byte that starts at a non-negative
    address and ends inside the 32-bit address space, [accepts] is true
    exactly when the whole interval [address, address + size - 1] lies
    within [firstAddress, lastAddress]. *)
Lemma accepts_iff_within {S : Type} (d : Device.t S) (address size : Z) :
  1 <= size ->
  0 <= address ->
  address + size <= 4294967296 ->
  Device.accepts d address size = true <-> Spec.interval_within d address size.
Proof.
  intros Hs Ha Hend. unfold Device.accepts, Spec.interval_within.
  rewrite unsigned_small by lia.
  rewrite andb_true_iff, Z.leb_le, Z.leb_le. split.
  - intros [H1 H2] a Hr. lia.
  - intros H. pose proof (H address). pose proof (H (address + size - 1)). lia.
Qed.

Lemma accepts_iff_within_witness :
  Device.accepts Fixture.top_memory 0xFFFFFFFC 4 = true <->
  Spec.interval_within Fixture.top_memory 0xFFFFFFFC 4.
Proof.
  apply (accepts_iff_within Fixture.top_memory 0xFFFFFFFC 4); lia.
Defined.

(** ** Memory *)

Lemma to_Z_range (b : byte) : 0 <= Uint8Array.to_Z b < 256.
Proof.
  unfold Uint8Array.to_Z. pose proof (Byte.to_N_bounded b). lia.
Qed.

Lemma to_of_Z (z : Z) : Uint8Array.to_Z (Uint8Array.of_Z z) = z mod 256.
Proof.
  unfold Uint8Array.to_Z, Uint8Array.of_Z.
  pose proof (Z.mod_pos_bound z 256 ltac:(lia)) as Hb.
  destruct (Byte.of_N (Z.to_N (z mod 256))) as [b|] eqn:E.
  - apply Byte.to_of_N in E. rewrite E. lia.
  - apply Byte.of_N_None_iff in E. lia.
Qed.

Lemma lor_disjoint (lo h k : Z) :
  0 <= k -> 0 <= lo < 2 ^ k -> Z.lor lo (h * 2 ^ k) = lo + h * 2 ^ k.
Proof.
  intros Hk Hlo. rewrite <- Z.shiftl_mul_pow2 by assumption.
  assert (D : Z.land lo (Z.shiftl h k) = 0).
  { apply Z.bits_inj'. intros n Hn.
    rewrite Z.land_spec, Z.bits_0.
    destruct (Z.lt_ge_cases n k) as [L|G].
    - rewrite (Z.shiftl_spec_low h k n L). apply andb_false_r.
    - destruct (Z.eq_dec lo 0) as [->|N]; [now rewrite Z.bits_0|].
      rewrite (Z.bits_above_log2 lo n); [reflexivity|lia|].
      apply Z.lt_le_trans with k; [|assumption].
      apply Z.log2_lt_pow2; lia. }
  rewrite (Z.add_nocarry_lxor _ _ D). symmetry. now apply Z.lxor_lor.
Qed.

(** Or-ing a shifted byte into an accumulator that is below the shift. *)
Lemma or_shl_byte (acc n k : Z) :
  k = 0 \/ k = 8 \/ k = 16 \/ k = 24 ->
  0 <= acc < 2 ^ k ->
  0 <= n < 256 ->
  js.or acc (js.shl n k) = int32.signed (acc + n * 2 ^ k).
Proof.
  intros Hk Hacc Hn.
  assert (Hc : js.count k = k)
    by (destruct Hk as [->|[->|[->| ->]]]; reflexivity).
  assert (Hk0 : 0 <= k) by lia.
  assert (Hp : 2 ^ k = 1 \/ 2 ^ k = 256 \/ 2 ^ k = 65536 \/ 2 ^ k = 16777216)
    by (destruct Hk as [->|[->|[->| ->]]]; auto).
  unfold js.or, js.shl. rewrite Hc, Z.shiftl_mul_pow2 by assumption.
  fold (int32.signed n). rewrite (signed_small n) by lia.
  fold (int32.signed acc). rewrite (signed_small acc) by lia.
  fold (int32.signed (n * 2 ^ k)).
  fold (int32.signed (int32.signed (n * 2 ^ k))).
  rewrite (signed_small (int32.signed _)) by apply signed_range.
  assert (E : exists m, int32.signed (n * 2 ^ k) = m * 2 ^ k /\
                        int32.signed (acc + n * 2 ^ k) = acc + m * 2 ^ k).
  { destruct (Z.lt_ge_cases (acc + n * 2 ^ k) 2147483648) as [L|G].
    - exists n. rewrite !signed_small by lia. auto.
    - exists (n - 256). unfold int32.signed, js.ToInt32.
      assert (2 ^ k = 16777216) as -> by lia.
      split; Z.to_euclidean_division_equations; lia. }
  destruct E as (m & -> & ->).
  apply lor_disjoint; assumption.
Qed.

Lemma get_stored (data : list byte) (offset size : Z) (j : nat) :
  0 <= offset -> (j < Z.to_nat size)%nat ->
  Uint8Array.get data (offset + Z.of_nat j) = Spec.stored data offset size !! j.
Proof.
  intros Ho Hj. unfold Uint8Array.get, Spec.stored.
  rewrite list_lookup_fmap, lookup_take_lt, lookup_drop by assumption.
  replace (Z.to_nat offset + j)%nat with (Z.to_nat (offset + Z.of_nat j))
    by lia.
  destruct (Z.ltb_spec (offset + Z.of_nat j) 0); [lia|].
  destruct (Z.leb_spec (Z.of_nat (length data)) (offset + Z.of_nat j));
    simpl; [|reflexivity].
  rewrite lookup_ge_None_2 by lia. reflexivity.
Qed.

Lemma stored_length (data : list byte) (offset size : Z) :
  0 <= offset -> 0 <= size -> offset + size <= Z.of_nat (length data) ->
  length (Spec.stored data offset size) = Z.to_nat size.
Proof.
  intros Ho Hs Hr. unfold Spec.stored.
  rewrite length_fmap, length_take, length_drop. lia.
Qed.

Lemma stored_bytes (data : list byte) (offset size : Z) :
  Forall (fun n => 0 <= n < 256) (Spec.stored data offset size).
Proof.
  unfold Spec.stored. apply Forall_fmap, Forall_forall.
  intros b _. apply to_Z_range.
Qed.

(** The three access widths, unrolled. *)
Lemma localRead_1 (data : list byte) (offset : Z) :
  Memory.localRead data offset 1 =
  js.or 0 (js.shl (js.number (Uint8Array.get data (offset + Z.of_nat 0))) 0).
Proof. reflexivity. Qed.

Lemma localRead_2 (data : list byte) (offset : Z) :
  Memory.localRead data offset 2 =
  js.or (js.or 0 (js.shl (js.number (Uint8Array.get data (offset + Z.of_nat 0))) 0))
    (js.shl (js.number (Uint8Array.get data (offset + Z.of_nat 1))) 8).
Proof. reflexivity. Qed.

Lemma localRead_4 (data : list byte) (offset : Z) :
  Memory.localRead data offset 4 =
  js.or
    (js.or
       (js.or
          (js.or 0 (js.shl (js.number (Uint8Array.get data (offset + Z.of_nat 0))) 0))
          (js.shl (js.number (Uint8Array.get data (offset + Z.of_nat 1))) 8))
       (js.shl (js.number (Uint8Array.get data (offset + Z.of_nat 2))) 16))
    (js.shl (js.number (Uint8Array.get data (offset + Z.of_nat 3))) 24).
Proof. reflexivity. Qed.

(** C8 as stated fails for a 4-byte read whose top byte has bit 7 set:
    the composition is made with 32-bit signed bit operations.  For the
    bytes 00 00 00 80 the sum is 2147483648, the value returned is
    -2147483648. *)
Lemma localRead_counterexample :
  let data := Memory.localWrite (repeat x00 4) 0 4 2147483648 in
  data = [x00; x00; x00; x80] /\
  Spec.little_endian (Spec.stored data 0 4) = 2147483648 /\
  Memory.localRead data 0 4 = -2147483648 /\
  Memory.localRead data 0 4 < 0 /\
  Memory.localRead data 0 4 <> Spec.little_endian (Spec.stored data 0 4).
Proof. vm_compute. repeat split; discriminate. Qed.

(** C8 (amended).  For an in-range offset and a size in {1, 2, 4},
    [localRead] returns the little-endian composition of the stored bytes
    reinterpreted as a signed 32-bit word.  For the sizes 1 and 2, and for
    size 4 when the composition is below 2^31, this is the composition
    itself, a non-negative value. *)
Theorem localRead_little_endian (data : list byte) (offset size : Z) :
  size = 1 \/ size = 2 \/ size = 4 ->
  0 <= offset ->
  offset + size <= Z.of_nat (length data) ->
  let sum := Spec.little_endian (Spec.stored data offset size) in
  Memory.localRead data offset size = int32.signed sum /\
  0 <= sum < 2 ^ (8 * size) /\
  (sum < 2147483648 -> Memory.localRead data offset size = sum) /\
  (size = 1 \/ size = 2 -> Memory.localRead data offset size = sum).
Proof.
  intros Hs Ho Hr.
  pose proof (stored_length data offset size Ho ltac:(lia) Hr) as Hlen.
  pose proof (stored_bytes data offset size) as Hb.
  assert (G : forall j, (j < Z.to_nat size)%nat ->
                js.number (Uint8Array.get data (offset + Z.of_nat j)) =
                js.number (Spec.stored data offset size !! j)).
  { intros j Hj. now rewrite (get_stored data offset size j). }
  cbv zeta.
  assert (Main : Memory.localRead data offset size =
                 int32.signed (Spec.little_endian (Spec.stored data offset size))
                 /\ 0 <= Spec.little_endian (Spec.stored data offset size)
                    < 2 ^ (8 * size)).
  { destruct Hs as [->|[->| ->]].
    - rewrite localRead_1, G by (simpl; lia).
      destruct (Spec.stored data offset 1) as [|n0 [|? ?]]; try discriminate.
      inversion_clear Hb as [|? ? B0 _]. simpl.
      rewrite or_shl_byte by (auto; simpl; lia).
      split; [f_equal; lia | simpl; lia].
    - rewrite localRead_2, !G by (simpl; lia).
      destruct (Spec.stored data offset 2) as [|n0 [|n1 [|? ?]]];
        try discriminate.
      inversion_clear Hb as [|? ? B0 Hb1]. inversion_clear Hb1 as [|? ? B1 _].
      simpl Spec.little_endian. simpl js.number.
      rewrite (or_shl_byte 0 n0 0) by (auto; simpl; lia).
      rewrite (signed_small (0 + n0 * 2 ^ 0)) by lia.
      rewrite or_shl_byte by (auto; simpl; lia).
      split; [f_equal; lia | simpl; lia].
    - rewrite localRead_4, !G by (simpl; lia).
      destruct (Spec.stored data offset 4) as [|n0 [|n1 [|n2 [|n3 [|? ?]]]]];
        try discriminate.
      inversion_clear Hb as [|? ? B0 Hb1]. inversion_clear Hb1 as [|? ? B1 Hb2].
      inversion_clear Hb2 as [|? ? B2 Hb3]. inversion_clear Hb3 as [|? ? B3 _].
      simpl Spec.little_endian. simpl js.number.
      rewrite (or_shl_byte 0 n0 0) by (auto; simpl; lia).
      rewrite (signed_small (0 + n0 * 2 ^ 0)) by lia.
      rewrite (or_shl_byte _ n1 8) by (auto; simpl; lia).
      rewrite (signed_small (0 + n0 * 2 ^ 0 + n1 * 2 ^ 8)) by lia.
      rewrite (or_shl_byte _ n2 16) by (auto; simpl; lia).
      rewrite (signed_small (0 + n0 * 2 ^ 0 + n1 * 2 ^ 8 + n2 * 2 ^ 16)) by lia.
      rewrite (or_shl_byte _ n3 24) by (auto; simpl; lia).
      split; [f_equal; lia | simpl; lia]. }
  destruct Main as [M1 M2]. rewrite M1.
  split; [reflexivity|]. split; [assumption|].
  split.
  - intros L. apply signed_small. lia.
  - intros [->| ->]; apply signed_small; simpl in M2; lia.
Qed.

Lemma localRead_little_endian_witness :
  let data := [x01; x02; x03; x84; xff] in
  Memory.localRead data 0 4 = int32.signed 0x84030201 /\
  Memory.localRead data 3 2 = 0xff84.
Proof.
  pose proof (localRead_little_endian [x01; x02; x03; x84; xff] 0 4
                (or_intror (or_intror eq_refl)) ltac:(lia) ltac:(simpl; lia))
    as (H1 & _).
  pose proof (localRead_little_endian [x01; x02; x03; x84; xff] 3 2
                (or_intror (or_introl eq_refl)) ltac:(lia) ltac:(simpl; lia))
    as (_ & _ & _ & H2).
  split; [exact H1 | exact (H2 (or_intror eq_refl))].
Defined.

(** ** The bus *)

Lemma filter_head_find {A : Type} (f : A -> bool) (l : list A) :
  List.filter f l !! 0%nat = List.find f l.
Proof.
  induction l as [|a l IH]; simpl; [reflexivity|].
  destruct (f a); [reflexivity | exact IH].
Qed.

Lemma find_accepts {A : Type} (f : A -> bool) (l : list A) (a : A) :
  List.find f l = Some a -> f a = true /\ In a l.
Proof. intros H. apply List.find_some in H. tauto. Qed.

Section BusProperties.
Context {S : Type} `{!Peripheral S}.

Lemma write_header (d : Device.t S) (address size value : Z) :
  Device.firstAddress (Device.write d address size value) = Device.firstAddress d /\
  Device.lastAddress (Device.write d address size value) = Device.lastAddress d /\
  Device.size (Device.write d address size value) = Device.size d.
Proof.
  unfold Device.write, Device.localWrite.
  destruct (Device.body_of d); simpl; auto.
Qed.

Lemma accepts_write (d : Device.t S) (address size value a s : Z) :
  Device.accepts (Device.write d address size value) a s = Device.accepts d a s.
Proof.
  unfold Device.accepts.
  destruct (write_header d address size value) as (-> & -> & _). reflexivity.
Qed.

(** The loop of [Bus.write]: every object receives one call of [write]
    per occurrence of its reference in the list that is traversed. *)
Lemma write_loop_lookup (refs : list nat) (st : list (Device.t S))
      (address size value : Z) (r : nat) :
  Bus.write_loop st refs address size value !! r =
  Nat.iter (count_occ Nat.eq_dec refs r)
    (fun d => Device.write d address size value) <$> st !! r.
Proof.
  unfold Bus.write_loop. revert st.
  induction refs as [|r0 refs IH]; intros st; simpl.
  - now destruct (st !! r).
  - rewrite IH. destruct (Nat.eq_dec r0 r) as [->|N].
    + destruct (st !! r) as [d|] eqn:E.
      * rewrite list_lookup_insert_eq by (eapply lookup_lt_Some; eauto).
        simpl. f_equal.
        apply (Nat.iter_swap _ _ (fun d => Device.write d address size value)).
      * rewrite E. reflexivity.
    + destruct (st !! r0); [|reflexivity].
      now rewrite list_lookup_insert_ne.
Qed.

Lemma write_loop_nil (st : list (Device.t S)) (address size value : Z) :
  Bus.write_loop st [] address size value = st.
Proof. reflexivity. Qed.


Lemma find_ext {A : Type} (f g : A -> bool) (l : list A) :
  (forall a, f a = g a) -> List.find f l = List.find g l.
Proof.
  intros E. induction l as [|a l IH]; simpl; [reflexivity|].
  rewrite E, IH. reflexivity.
Qed.

Lemma iter_write_accepts (n : nat) (d : Device.t S) (address size value a s : Z) :
  Device.accepts
    (Nat.iter n (fun d => Device.write d address size value) d) a s
  = Device.accepts d a s.
Proof.
  induction n as [|n IH]; simpl; [reflexivity|].
  now rewrite accepts_write.
Qed.

Lemma write_loop_accepts (refs : list nat) (st : list (Device.t S))
      (address size value a s : Z) (r : nat) :
  Bus.accepts_ref (Bus.write_loop st refs address size value) a s r
  = Bus.accepts_ref st a s r.
Proof.
  unfold Bus.accepts_ref. rewrite write_loop_lookup.
  destruct (st !! r); simpl; [apply iter_write_accepts | reflexivity].
Qed.

Lemma first_accepting_write (b : Bus.t S) (address size value a s : Z) :
  Spec.first_accepting (Bus.write b address size value) a s
  = Spec.first_accepting b a s.
Proof.
  unfold Spec.first_accepting. simpl. apply find_ext.
  intros r. apply write_loop_accepts.
Qed.

(** What [Bus.read] returns and leaves behind, by the first accepting
    device. *)
Lemma bus_read_spec
        (b : Bus.t S) (address size : Z) (signed : bool) :
  let a := int32.unsigned address in
  match Spec.first_accepting b a size with
  | None =>
      (forall r, In r (Bus.devices b) ->
                 Bus.accepts_ref (Bus.store b) a size r = false) /\
      Bus.read b address size signed = (0, Spec.with_error b true)
  | Some r =>
      exists d, Bus.store b !! r = Some d /\
        Device.accepts d a size = true /\
        Bus.read b address size signed =
        (fst (Device.read d a size signed),
         {| Bus.store := <[r := snd (Device.read d a size signed)]> (Bus.store b);
            Bus.devices := Bus.devices b;
            Bus.error := false |})
  end /\
  forall e : bool,
    Bus.read (Spec.with_error b e) address size signed =
    Bus.read b address size signed.
Proof.
  cbv zeta. split; [|reflexivity].
  unfold Spec.first_accepting, Bus.read, Bus.getDevices.
  rewrite unsigned_idem.
  set (f := Bus.accepts_ref (Bus.store b) (int32.unsigned address) size).
  rewrite filter_head_find.
  destruct (List.find f (Bus.devices b)) as [r|] eqn:E.
  - destruct (find_accepts f _ r E) as [Hf Hin].
    assert (L : List.filter f (Bus.devices b) <> []).
    { intros N. assert (I : In r (List.filter f (Bus.devices b)))
        by (apply List.filter_In; auto).
      rewrite N in I. destruct I. }
    destruct (List.filter f (Bus.devices b)) as [|r1 devs]; [congruence|].
    simpl. unfold f, Bus.accepts_ref in Hf.
    destruct (Bus.store b !! r) as [d|]; [|discriminate].
    exists d. repeat split; try assumption.
    now destruct (Device.read d (int32.unsigned address) size signed).
  - split.
    + intros r Hin. exact (List.find_none f _ E r Hin).
    + assert (N : List.filter f (Bus.devices b) = []).
      { destruct (List.filter f (Bus.devices b)) as [|r devs] eqn:F;
          [reflexivity|].
        assert (I : In r (List.filter f (Bus.devices b)))
          by (rewrite F; now left).
        apply List.filter_In in I. destruct I as [I1 I2].
        rewrite (List.find_none f _ E r I1) in I2. discriminate. }
      rewrite N. reflexivity.
Qed.

Lemma read_header (d : Device.t S) (a s : Z) (g : bool) :
  Device.firstAddress (snd (Device.read d a s g)) = Device.firstAddress d /\
  Device.lastAddress (snd (Device.read d a s g)) = Device.lastAddress d.
Proof.
  unfold Device.read, Device.localRead.
  destruct (Device.body_of d) as [|data|st]; simpl; auto.
  destruct (p_localRead st _ s); simpl; auto.
Qed.

(** Neither a read nor a write changes which devices accept an access. *)
Lemma first_accepting_read (b : Bus.t S) (address size : Z) (g : bool)
      (a s : Z) :
  Spec.first_accepting (snd (Bus.read b address size g)) a s
  = Spec.first_accepting b a s.
Proof.
  pose proof (bus_read_spec b address size g) as [H _].
  destruct (Spec.first_accepting b (int32.unsigned address) size) as [r0|].
  - destruct H as (d & Hd & _ & ->). unfold Spec.first_accepting. simpl.
    apply find_ext. intros r. unfold Bus.accepts_ref.
    destruct (Nat.eq_dec r0 r) as [->|N].
    + rewrite list_lookup_insert_eq by (eapply lookup_lt_Some; eauto).
      rewrite Hd. unfold Device.accepts.
      destruct (read_header d (int32.unsigned address) size g) as [-> ->].
      reflexivity.
    + now rewrite list_lookup_insert_ne.
  - destruct H as [_ ->]. reflexivity.
Qed.

Lemma bus_read_error (b : Bus.t S) (address size : Z) (g : bool) :
  Bus.error (snd (Bus.read b address size g)) =
  match Spec.first_accepting b (int32.unsigned address) size with
  | None => true
  | Some _ => false
  end.
Proof.
  pose proof (bus_read_spec b address size g) as [H _].
  destruct (Spec.first_accepting b (int32.unsigned address) size).
  - destruct H as (d & _ & _ & ->). reflexivity.
  - destruct H as [_ ->]. reflexivity.
Qed.

End BusProperties.

Section BusTheorems.
Context {S : Type} `{!Peripheral S}.

(** C5.  [Bus.read] resolves the address to unsigned 32 bits.  If no
    registered device accepts the access it sets [error] and returns 0,
    leaving the devices alone; otherwise it clears [error] and returns what
    [read] of the first accepting device returns (that device being updated
    with whatever its read hook does).  The outcome, error flag included,
    does not depend on the error flag left by earlier calls, and the error
    flag is the same whether or not another read or write came before. *)
Theorem bus_read_first_accepting
        (b : Bus.t S) (address size : Z) (signed : bool) :
  let a := int32.unsigned address in
  match Spec.first_accepting b a size with
  | None =>
      (forall r, In r (Bus.devices b) ->
                 Bus.accepts_ref (Bus.store b) a size r = false) /\
      Bus.read b address size signed = (0, Spec.with_error b true)
  | Some r =>
      exists d, Bus.store b !! r = Some d /\
        Device.accepts d a size = true /\
        Bus.read b address size signed =
        (fst (Device.read d a size signed),
         {| Bus.store := <[r := snd (Device.read d a size signed)]> (Bus.store b);
            Bus.devices := Bus.devices b;
            Bus.error := false |})
  end /\
  (forall e : bool,
      Bus.read (Spec.with_error b e) address size signed =
      Bus.read b address size signed) /\
  (forall (a' s' : Z) (g' : bool),
      Bus.error (snd (Bus.read (snd (Bus.read b a' s' g')) address size signed))
      = Bus.error (snd (Bus.read b address size signed))) /\
  (forall a' s' v' : Z,
      Bus.error (snd (Bus.read (Bus.write b a' s' v') address size signed))
      = Bus.error (snd (Bus.read b address size signed))).
Proof.
  cbv zeta. pose proof (bus_read_spec b address size signed) as [H E].
  split; [exact H|]. split; [exact E|]. split.
  - intros a' s' g'. now rewrite !bus_read_error, first_accepting_read.
  - intros a' s' v'. now rewrite !bus_read_error, first_accepting_write.
Qed.

(** C6.  [Bus.write] collects the registered devices that accept the
    (unsigned-resolved) address range.  If there is none, [error] is set
    and no device changes.  Otherwise [error] is cleared and every device
    object receives one call of [write] for each of its accepting entries
    in the device list: at least one for an accepting device, none for the
    others; two distinct overlapping devices that both accept are both
    written. *)
Theorem bus_write_broadcast (b : Bus.t S) (address size value : Z) :
  let acc := Bus.getDevices b address size in
  let b' := Bus.write b address size value in
  (forall r, In r acc <->
             In r (Bus.devices b) /\
             Bus.accepts_ref (Bus.store b) (int32.unsigned address) size r
             = true) /\
  Bus.devices b' = Bus.devices b /\
  Bus.error b' = match acc with [] => true | _ :: _ => false end /\
  (acc = [] -> Bus.store b' = Bus.store b) /\
  (forall r d,
      Bus.store b !! r = Some d ->
      Bus.store b' !! r =
      Some (Nat.iter (count_occ Nat.eq_dec acc r)
              (fun d => Device.write d address size value) d)) /\
  (forall r, In r acc <-> (0 < count_occ Nat.eq_dec acc r)%nat).
Proof.
  cbv zeta.
  split; [intros r; unfold Bus.getDevices; apply List.filter_In|].
  split; [reflexivity|].
  split; [simpl; now destruct (Bus.getDevices b address size)|].
  split; [intros N; simpl; rewrite N; reflexivity|].
  split; [|intros r; apply count_occ_In].
  intros r d Hd. simpl. rewrite write_loop_lookup, Hd. reflexivity.
Qed.

End BusTheorems.

(** Two overlapping memories: a byte written at address 9 lands in both,
    at offset 9 of the first and at offset 1 of the second. *)
Lemma bus_write_broadcast_witness :
  let b' := Bus.write Fixture.mirrored 9 1 255 in
  Bus.getDevices Fixture.mirrored 9 1 = [0%nat; 1%nat] /\
  Bus.error b' = false /\
  (forall d, Bus.store Fixture.mirrored !! 0%nat = Some d ->
             Bus.store b' !! 0%nat = Some (Device.write d 9 1 255)) /\
  (forall d, Bus.store Fixture.mirrored !! 1%nat = Some d ->
             Bus.store b' !! 1%nat = Some (Device.write d 9 1 255)).
Proof.
  destruct (bus_write_broadcast Fixture.mirrored 9 1 255)
    as (_ & _ & He & _ & Hw & _).
  split; [reflexivity|]. split; [exact He|].
  split; intros d Hd; exact (Hw _ d Hd).
Defined.

(** ** A byte stored through the bus and loaded back *)

Section StoreLoad.
Context {S : Type} `{!Peripheral S}.

Lemma memory_new_object (first size : Z) (d : Device.t S) :
  Memory_new first size = Some d ->
  exists data, Spec.memory_object d data /\ 0 <= Device.size d.
Proof.
  unfold Memory_new, Uint8Array.new.
  destruct (Z.ltb_spec size 0); simpl; [discriminate|].
  intros [= <-]. exists (repeat x00 (Z.to_nat size)). split; [|simpl; lia].
  exists first. simpl. split; [reflexivity | apply repeat_length].
Qed.

(** An accepted byte of a memory of at least one byte lies inside its
    array. *)
Lemma accepted_offset (d : Device.t S) (data : list byte) (A : Z) :
  Spec.memory_object d data ->
  1 <= Device.size d ->
  Device.accepts d (int32.unsigned A) 1 = true ->
  let off := int32.unsigned (A - Device.firstAddress d) in
  int32.unsigned (int32.unsigned A - Device.firstAddress d) = off /\
  0 <= off /\ (Z.to_nat off < length data)%nat.
Proof.
  intros (first & Hd & Hlen) Hsize Hacc. cbv zeta.
  split; [apply unsigned_sub_unsigned|].
  rewrite <- unsigned_sub_unsigned.
  unfold Device.accepts in Hacc. rewrite Hd in Hacc |- *. simpl in *.
  apply andb_true_iff in Hacc. destruct Hacc as [H1 H2].
  apply Z.leb_le in H1, H2.
  replace (int32.unsigned A + 1 - 1) with (int32.unsigned A) in H2 by lia.
  rewrite unsigned_idem in H2.
  pose proof (unsigned_range A) as RA. pose proof (unsigned_range first) as RF.
  rewrite (unsigned_small (int32.unsigned A - int32.unsigned first)) by lia.
  split; [lia|]. rewrite Hlen.
  assert (int32.unsigned (first + Device.size d - 1)
          <= int32.unsigned first + Device.size d - 1).
  { unfold int32.unsigned, js.ToUint32 in *.
    Z.to_euclidean_division_equations. lia. }
  lia.
Qed.

Lemma memory_object_same (d : Device.t S) (data : list byte) :
  Spec.memory_object d data -> Spec.same_memory d data d.
Proof.
  intros (first & Hd & _). exists data. split; [|reflexivity].
  rewrite Hd at 1. rewrite Hd. reflexivity.
Qed.

Lemma write_byte_same (d d' : Device.t S) (data : list byte) (A : Z) :
  Spec.same_memory d data d' ->
  0 <= int32.unsigned (A - Device.firstAddress d) ->
  exists data',
    Device.write d' A 1 255 = Device.with_body d (Device.MemoryData data') /\
    length data' = length data /\
    (Z.to_nat (int32.unsigned (A - Device.firstAddress d)) < length data ->
     data' !! Z.to_nat (int32.unsigned (A - Device.firstAddress d))
     = Some xff)%nat.
Proof.
  intros (data1 & -> & Hlen) Hoff.
  exists (<[Z.to_nat (int32.unsigned (A - Device.firstAddress d)) := xff]> data1).
  split; [|split].
  - unfold Device.write, Device.localWrite. simpl.
    unfold Device.with_body. simpl. do 2 f_equal.
    unfold Memory.localWrite. simpl. unfold Uint8Array.set.
    rewrite Z.add_0_r.
    destruct (Z.ltb_spec (int32.unsigned (A - Device.firstAddress d)) 0);
      [lia|].
    destruct (Z.leb_spec (Z.of_nat (length data1))
                (int32.unsigned (A - Device.firstAddress d)));
      simpl; [|reflexivity].
    rewrite list_insert_ge by lia. reflexivity.
  - now rewrite length_insert.
  - intros L. apply list_lookup_insert_eq. lia.
Qed.

Lemma iter_write_byte (n : nat) (d : Device.t S) (data : list byte) (A : Z) :
  Spec.memory_object d data ->
  0 <= int32.unsigned (A - Device.firstAddress d) ->
  (Z.to_nat (int32.unsigned (A - Device.firstAddress d)) < length data)%nat ->
  exists data',
    Nat.iter (Datatypes.S n) (fun d => Device.write d A 1 255) d
    = Device.with_body d (Device.MemoryData data') /\
    data' !! Z.to_nat (int32.unsigned (A - Device.firstAddress d)) = Some xff.
Proof.
  intros Hm H0 HL.
  assert (Q : Spec.same_memory d data
                (Nat.iter n (fun d => Device.write d A 1 255) d)).
  { induction n as [|n IH]; simpl; [now apply memory_object_same|].
    destruct (write_byte_same d _ data A IH H0) as (data' & E & Hlen & _).
    exists data'. auto. }
  simpl. destruct (write_byte_same d _ data A Q H0) as (data' & E & _ & Hx).
  exists data'. auto.
Qed.

Lemma read_stored_byte (d : Device.t S) (data' : list byte) (a : Z) :
  let off := int32.unsigned (a - Device.firstAddress d) in
  0 <= off ->
  data' !! Z.to_nat off = Some xff ->
  fst (Device.read (Device.with_body d (Device.MemoryData data')) a 1 true) = -1 /\
  fst (Device.read (Device.with_body d (Device.MemoryData data')) a 1 false) = 255.
Proof.
  cbv zeta. intros H0 Hx.
  unfold Device.read, Device.localRead. simpl.
  rewrite localRead_1. unfold Uint8Array.get.
  change (Z.of_nat 0) with 0. rewrite Z.add_0_r.
  destruct (Z.ltb_spec (int32.unsigned (a - Device.firstAddress d)) 0); [lia|].
  pose proof (lookup_lt_Some _ _ _ Hx) as L.
  destruct (Z.leb_spec (Z.of_nat (length data'))
              (int32.unsigned (a - Device.firstAddress d))); [lia|].
  simpl. rewrite Hx. split; reflexivity.
Qed.

End StoreLoad.

Section StoreLoadTheorem.
Context {S : Type} `{!Peripheral S}.

(** C9 (amended).  Let the first registered device that accepts a 1-byte
    access at [A] be a memory made by [new Memory] with at least one byte.
    After a 1-byte bus write of 0xFF at [A], a signed 1-byte bus read at [A]
    returns -1 and an unsigned one returns 255, both without bus error. *)
Theorem byte_store_then_load
        (b : Bus.t S) (A : Z) (r : nat) (d : Device.t S) (data : list byte) :
  Spec.first_accepting b (int32.unsigned A) 1 = Some r ->
  Bus.store b !! r = Some d ->
  Spec.memory_object d data ->
  1 <= Device.size d ->
  let b1 := Bus.write b A 1 255 in
  Bus.error b1 = false /\
  fst (Bus.read b1 A 1 true) = -1 /\
  Bus.error (snd (Bus.read b1 A 1 true)) = false /\
  fst (Bus.read b1 A 1 false) = 255 /\
  Bus.error (snd (Bus.read b1 A 1 false)) = false.
Proof.
  intros Hfirst Hd Hm Hsize. cbv zeta.
  destruct (find_accepts _ _ _ Hfirst) as [Hacc Hin].
  assert (Hd_acc : Device.accepts d (int32.unsigned A) 1 = true).
  { unfold Bus.accepts_ref in Hacc. now rewrite Hd in Hacc. }
  destruct (accepted_offset d data A Hm Hsize Hd_acc) as (Eoff & H0 & HL).
  assert (Hmem : In r (Bus.getDevices b A 1)).
  { unfold Bus.getDevices. apply List.filter_In. auto. }
  assert (Hcount : exists n, count_occ Nat.eq_dec (Bus.getDevices b A 1) r
                             = Datatypes.S n).
  { apply (count_occ_In Nat.eq_dec) in Hmem.
    destruct (count_occ Nat.eq_dec (Bus.getDevices b A 1) r) as [|n];
      [lia | eauto]. }
  destruct Hcount as [n Hn].
  destruct (iter_write_byte n d data A Hm H0 HL) as (data' & Hit & Hx).
  assert (Hst : Bus.store (Bus.write b A 1 255) !! r
                = Some (Device.with_body d (Device.MemoryData data'))).
  { simpl. rewrite write_loop_lookup, Hd, Hn. simpl. f_equal. exact Hit. }
  assert (Herr : Bus.error (Bus.write b A 1 255) = false).
  { simpl. destruct (Bus.getDevices b A 1); [destruct Hmem | reflexivity]. }
  split; [exact Herr|].
  assert (R : forall sg,
             Bus.read (Bus.write b A 1 255) A 1 sg =
             (fst (Device.read (Device.with_body d (Device.MemoryData data'))
                     (int32.unsigned A) 1 sg),
              {| Bus.store :=
                   <[r := snd (Device.read
                                 (Device.with_body d (Device.MemoryData data'))
                                 (int32.unsigned A) 1 sg)]>
                     (Bus.store (Bus.write b A 1 255));
                 Bus.devices := Bus.devices (Bus.write b A 1 255);
                 Bus.error := false |})).
  { intros sg.
    pose proof (bus_read_spec (Bus.write b A 1 255) A 1 sg) as [H _].
    rewrite first_accepting_write, Hfirst in H.
    destruct H as (d1 & Hd1 & _ & H). rewrite Hst in Hd1.
    injection Hd1 as <-. exact H. }
  rewrite !R. simpl fst. simpl snd. simpl Bus.error.
  assert (H0' : 0 <= int32.unsigned (int32.unsigned A - Device.firstAddress d))
    by (rewrite Eoff; exact H0).
  rewrite <- Eoff in Hx.
  destruct (read_stored_byte d data' (int32.unsigned A) H0' Hx) as [R1 R2].
  repeat split; assumption.
Qed.

End StoreLoadTheorem.

(** C9 as stated fails in two ways.  On [Fixture.shadowed] the memory
    accepts address 3 and receives the byte, but the read is served by the
    device registered before it, whose [localRead] returns 0.  On
    [Fixture.empty_memory] a memory of no bytes at address 0 accepts every
    1-byte access (its last address wraps to 0xFFFFFFFF), drops the write
    and reads 0. *)
Lemma byte_store_then_load_counterexample :
  (Bus.accepts_ref (Bus.store Fixture.shadowed) 3 1 1%nat = true /\
   (exists m, Bus.store Fixture.shadowed !! 1%nat = Some m /\
              Memory_new 0 16 = Some m) /\
   fst (Bus.read (Bus.write Fixture.shadowed 3 1 255) 3 1 true) = 0 /\
   fst (Bus.read (Bus.write Fixture.shadowed 3 1 255) 3 1 false) = 0) /\
  (Bus.accepts_ref (Bus.store Fixture.empty_memory) 5 1 0%nat = true /\
   (exists m, Bus.store Fixture.empty_memory !! 0%nat = Some m /\
              Memory_new 0 0 = Some m) /\
   fst (Bus.read (Bus.write Fixture.empty_memory 5 1 255) 5 1 true) = 0 /\
   fst (Bus.read (Bus.write Fixture.empty_memory 5 1 255) 5 1 false) = 0).
Proof.
  split; (split; [reflexivity|]); (split; [|split; reflexivity]);
    eexists; split; reflexivity.
Qed.

(** On the board of [Fixture.board] address 3 belongs to the 16-byte memory. *)
Lemma byte_store_then_load_witness :
  let b1 := Bus.write (Fixture.board false) 3 1 255 in
  Bus.error b1 = false /\
  fst (Bus.read b1 3 1 true) = -1 /\
  Bus.error (snd (Bus.read b1 3 1 true)) = false /\
  fst (Bus.read b1 3 1 false) = 255 /\
  Bus.error (snd (Bus.read b1 3 1 false)) = false.
Proof.
  apply (byte_store_then_load (Fixture.board false) 3 0%nat
           (Device.new 0 16 (Device.MemoryData (repeat x00 16)))
           (repeat x00 16)).
  - reflexivity.
  - reflexivity.
  - exists 0. split; reflexivity.
  - simpl. lia.
Defined.

(** The same round trip through the core: [lb] loads -1 into [x1] and
    [lbu] loads 255 into [x2]. *)
Lemma lb_lbu_example :
  Virgule.x
    (fst (Virgule.run Fixture.decode [Virgule.Step; Virgule.Step]
            (Virgule.new 4, Fixture.loads)))
  = [0; -1; 255; 0].
Proof. vm_compute. reflexivity. Qed.

(** The wrapping access as the core issues it: [lw x1, -2(x0)] is served
    by the memory at address 0 and reports no bus error. *)
Lemma lw_wraps_example :
  let '(tr, _, _) :=
    Virgule.step Fixture.decode (Virgule.new 4) Fixture.wrapping_load in
  Trace.r tr = -2 /\ Trace.l tr = 0 /\ Trace.loadStoreError tr = false.
Proof. vm_compute. repeat split; reflexivity. Qed.

(** On the board, a read at 0x100 is served by the interrupt line and a
    read at 0x200 by nobody. *)
Lemma bus_read_first_accepting_witness :
  Bus.read (Fixture.board true) 0x100 4 false
  = (1, Spec.with_error (Fixture.board true) false) /\
  Bus.read (Spec.with_error (Fixture.board true) true) 0x200 4 false
  = (0, Spec.with_error (Fixture.board true) true).
Proof.
  split.
  - destruct (bus_read_first_accepting (Fixture.board true) 0x100 4 false)
      as [(d & Hd & _ & H) _].
    injection Hd as <-. exact H.
  - destruct (bus_read_first_accepting (Fixture.board true) 0x200 4 false)
      as [[_ H] [E _]].
    rewrite E. exact H.
Defined.

(** * Further properties of the code *)

(** ** The register file *)

Lemma getX_setX_same (c : Virgule.t) (i v : Z) :
  1 <= i < Z.of_nat (length (Virgule.x c)) ->
  Virgule.getX (Virgule.setX c i v) i = int32.signed v.
Proof.
  intros Hi. unfold Virgule.getX, Virgule.setX.
  destruct (Z.ltb_spec 0 i); [|lia].
  destruct (Z.ltb_spec i (Z.of_nat (length (Virgule.x c)))); [|lia].
  simpl. rewrite length_insert.
  destruct (Z.ltb_spec i (Z.of_nat (length (Virgule.x c)))); [|lia].
  rewrite list_lookup_insert_eq by lia. reflexivity.
Qed.

Lemma getX_setX_other (c : Virgule.t) (i j v : Z) :
  j <> i -> Virgule.getX (Virgule.setX c i v) j = Virgule.getX c j.
Proof.
  intros N. unfold Virgule.getX, Virgule.setX.
  destruct ((0 <? i) && (i <? Z.of_nat (length (Virgule.x c)))) eqn:Ei;
    [|reflexivity].
  simpl. rewrite length_insert.
  destruct ((0 <? j) && (j <? Z.of_nat (length (Virgule.x c)))) eqn:Ej;
    [|reflexivity].
  apply andb_true_iff in Ei, Ej. rewrite !Z.ltb_lt in Ei, Ej.
  rewrite list_lookup_insert_ne by lia. reflexivity.
Qed.

(** X1.  A register write that [setX] accepts is read back by [getX] as the
    signed 32-bit value of what was written, and no other register is
    affected. *)
Theorem setX_then_getX (c : Virgule.t) (i v : Z) :
  1 <= i < Z.of_nat (length (Virgule.x c)) ->
  Virgule.getX (Virgule.setX c i v) i = int32.signed v /\
  forall j, j <> i -> Virgule.getX (Virgule.setX c i v) j = Virgule.getX c j.
Proof.
  intros Hi. split; [now apply getX_setX_same|].
  intros j N. now apply getX_setX_other.
Qed.

Lemma setX_then_getX_witness :
  Virgule.getX (Virgule.setX (Virgule.new 4) 2 4294967295) 2 = -1 /\
  forall j, j <> 2 ->
            Virgule.getX (Virgule.setX (Virgule.new 4) 2 4294967295) j
            = Virgule.getX (Virgule.new 4) j.
Proof.
  apply (setX_then_getX (Virgule.new 4) 2 4294967295). simpl. lia.
Defined.

Lemma setX_int32 (c : Virgule.t) (i v : Z) :
  Forall Spec.is_int32 (Virgule.x c) ->
  Forall Spec.is_int32 (Virgule.x (Virgule.setX c i v)).
Proof.
  intros H. unfold Virgule.setX.
  destruct ((0 <? i) && (i <? Z.of_nat (length (Virgule.x c)))); [|exact H].
  simpl. apply Forall_insert; [exact H|]. apply signed_range.
Qed.

Lemma getX_int32 (c : Virgule.t) (i : Z) :
  Forall Spec.is_int32 (Virgule.x c) -> Spec.is_int32 (Virgule.getX c i).
Proof.
  intros H. unfold Virgule.getX.
  destruct ((0 <? i) && (i <? Z.of_nat (length (Virgule.x c))));
    [|unfold Spec.is_int32; lia].
  destruct (Virgule.x c !! Z.to_nat i) as [z|] eqn:E; simpl;
    [|unfold Spec.is_int32; lia].
  rewrite Forall_forall in H. apply H. eapply list_elem_of_lookup_2. eauto.
Qed.

Section RegisterFile.
Context {S : Type} `{!Peripheral S}.
Variable fromWord : Z -> bin.instr.

(** What [step] does to the register file: nothing, or one [setX] on the
    destination register of the decoded instruction. *)
Lemma step_registers (c : Virgule.t) (bus : Bus.t S) :
  let '(tr, c', _) := Virgule.step fromWord c bus in
  Virgule.x c' = Virgule.x c \/
  exists v, Virgule.x c'
            = Virgule.x (Virgule.setX c (bin.rd (Trace.instr tr)) v).
Proof.
  unfold Virgule.step.
  destruct (Bus.read bus (Virgule.pc c) 4 false) as [word bus1].
  set (i := fromWord word).
  match goal with
  | |- context [Virgule.writeback ?c ?b ?i ?r ?p ?v] =>
      assert (W : fst (fst (Virgule.writeback c b i r p v)) = c \/
                  exists v', fst (fst (Virgule.writeback c b i r p v))
                             = Virgule.setX c (bin.rd i) v');
      [|destruct (Virgule.writeback c b i r p v) as [[c2 bus2] l]]
  end.
  { unfold Virgule.writeback.
    destruct (bin.wbMem i) as [[]|]; simpl; eauto;
      match goal with
      | |- context [Bus.read ?b ?a ?s ?g] => destruct (Bus.read b a s g)
      end; simpl; eauto. }
  simpl in W.
  assert (U : forall e t r p,
             Virgule.x (Virgule.update_pc c2 i e t r p) = Virgule.x c2).
  { intros e t r p. unfold Virgule.update_pc.
    destruct e; [reflexivity|].
    destruct (String.eqb _ _); [reflexivity|]. now destruct t. }
  simpl. rewrite U.
  destruct W as [->|[v ->]]; eauto.
Qed.

Lemma exec_registers (k : Virgule.call) (c : Virgule.t) (bus : Bus.t S) :
  Forall Spec.is_int32 (Virgule.x c) ->
  let c' := fst (Virgule.exec fromWord k (c, bus)) in
  Forall Spec.is_int32 (Virgule.x c') /\
  length (Virgule.x c') = length (Virgule.x c).
Proof.
  intros H. destruct k; simpl.
  - pose proof (step_registers c bus) as R.
    destruct (Virgule.step fromWord c bus) as [[tr c'] bus']. simpl.
    destruct R as [->|[v ->]]; [auto|].
    split; [now apply setX_int32 | apply setX_frame].
  - rewrite reset_loop_zero. split; [|apply repeat_length].
    apply Forall_forall. intros z Hz.
    apply list_elem_of_In, repeat_spec in Hz. subst. unfold Spec.is_int32. lia.
Qed.

(** X2.  A core made by [new Virgule(nx, bus)] has [nx] registers, and
    after any sequence of [step] and [reset] calls it still has [nx]
    registers, each of which holds a signed 32-bit value, so that [getX]
    always returns a signed 32-bit value. *)
Theorem registers_stay_int32
        (nx : nat) (ks : list Virgule.call) (bus : Bus.t S) (i : Z) :
  let c' := fst (Virgule.run fromWord ks (Virgule.new nx, bus)) in
  length (Virgule.x c') = nx /\
  Forall Spec.is_int32 (Virgule.x c') /\
  Spec.is_int32 (Virgule.getX c' i).
Proof.
  cbv zeta.
  assert (G : forall ks m,
             Forall Spec.is_int32 (Virgule.x (fst m)) ->
             Forall Spec.is_int32
               (Virgule.x (fst (Virgule.run fromWord ks m))) /\
             length (Virgule.x (fst (Virgule.run fromWord ks m)))
             = length (Virgule.x (fst m))).
  { clear. intros ks. induction ks as [|k ks IH]; intros [c bus] H; simpl.
    - auto.
    - destruct (exec_registers k c bus H) as [H1 H2].
      destruct (IH (Virgule.exec fromWord k (c, bus)) H1) as [H3 H4].
      split; [exact H3|]. rewrite H4. exact H2. }
  assert (N : Forall Spec.is_int32 (Virgule.x (Virgule.new nx)) /\
              length (Virgule.x (Virgule.new nx)) = nx).
  { unfold Virgule.new. simpl. rewrite reset_loop_zero, !repeat_length.
    split; [|reflexivity].
    apply Forall_forall. intros z Hz.
    apply list_elem_of_In, repeat_spec in Hz. subst. unfold Spec.is_int32. lia. }
  destruct N as [N1 N2].
  destruct (G ks (Virgule.new nx, bus) N1) as [G1 G2]. simpl in G2.
  split; [now rewrite G2|]. split; [exact G1|]. now apply getX_int32.
Qed.

(** X3.  A step changes at most one register, the destination register
    [rd] of the decoded instruction: every other index reads as before. *)
Theorem step_changes_only_rd (c : Virgule.t) (bus : Bus.t S) (j : Z) :
  let '(tr, c', _) := Virgule.step fromWord c bus in
  j = bin.rd (Trace.instr tr) \/ Virgule.getX c' j = Virgule.getX c j.
Proof.
  pose proof (step_registers c bus) as R.
  destruct (Virgule.step fromWord c bus) as [[tr c'] bus'].
  destruct (Z.eq_dec j (bin.rd (Trace.instr tr))) as [E|N]; [now left|right].
  destruct R as [R|[v R]].
  - unfold Virgule.getX. now rewrite R.
  - rewrite <- (getX_setX_other c (bin.rd (Trace.instr tr)) j v N).
    unfold Virgule.getX. now rewrite R.
Qed.

End RegisterFile.

(** ** The hooks of [Memory] *)

Lemma get_set (data : list byte) (p x k : Z) :
  Uint8Array.get (Uint8Array.set data p x) k =
  if (k =? p) && (0 <=? p) && (p <? Z.of_nat (length data))
  then Some (x mod 256)
  else Uint8Array.get data k.
Proof.
  unfold Uint8Array.get, Uint8Array.set.
  destruct (Z.ltb_spec p 0) as [Hp|Hp]; simpl.
  - destruct (Z.eqb_spec k p); simpl; [|reflexivity].
    destruct (Z.leb_spec 0 p); [lia | reflexivity].
  - destruct (Z.leb_spec (Z.of_nat (length data)) p) as [Hl|Hl]; simpl.
    + destruct (Z.eqb_spec k p); simpl; [|reflexivity].
      destruct (Z.leb_spec 0 p); simpl; [|reflexivity].
      destruct (Z.ltb_spec p (Z.of_nat (length data))); [lia | reflexivity].
    + rewrite length_insert.
      destruct (Z.eqb_spec k p) as [->|N]; simpl.
      * destruct (Z.leb_spec 0 p); [|lia].
        destruct (Z.ltb_spec p (Z.of_nat (length data))); [|lia].
        destruct (Z.ltb_spec p 0); [lia|].
        destruct (Z.leb_spec (Z.of_nat (length data)) p); [lia|]. simpl.
        rewrite list_lookup_insert_eq by lia. simpl.
        now rewrite to_of_Z.
      * destruct ((k <? 0) || (Z.of_nat (length data) <=? k)) eqn:G;
          [reflexivity|].
        apply orb_false_iff in G. destruct G as [G1 G2].
        apply Z.ltb_ge in G1. apply Z.leb_gt in G2.
        rewrite list_lookup_insert_ne by lia. reflexivity.
Qed.

Lemma set_length (data : list byte) (p x : Z) :
  length (Uint8Array.set data p x) = length data.
Proof.
  unfold Uint8Array.set.
  destruct ((p <? 0) || (Z.of_nat (length data) <=? p)); [reflexivity|].
  apply length_insert.
Qed.

Lemma localWrite_loop_length (n : nat) (data : list byte) (a v i : Z) :
  length (Memory.localWrite_loop data a v n i) = length data.
Proof.
  revert data i. induction n as [|n IH]; intros data i; simpl; [reflexivity|].
  rewrite IH. apply set_length.
Qed.

(** The array after the loop of [localWrite], element by element. *)
Lemma get_localWrite_loop (n : nat) (data : list byte) (a v i k : Z) :
  Uint8Array.get (Memory.localWrite_loop data a v n i) k =
  if (a + i <=? k) && (k <? a + i + Z.of_nat n) &&
     (0 <=? k) && (k <? Z.of_nat (length data))
  then Some (int32.unsignedSlice v (8 * (k - a) + 7) (8 * (k - a)) mod 256)
  else Uint8Array.get data k.
Proof.
  revert data i. induction n as [|n IH]; intros data i.
  - simpl Memory.localWrite_loop. change (Z.of_nat 0) with 0.
    destruct (Z.leb_spec (a + i) k), (Z.ltb_spec k (a + i + 0));
      simpl; try reflexivity; lia.
  - simpl Memory.localWrite_loop. rewrite IH, set_length, get_set.
    destruct (Z.leb_spec (a + (i + 1)) k), (Z.ltb_spec k (a + (i + 1) + Z.of_nat n)),
      (Z.leb_spec (a + i) k), (Z.ltb_spec k (a + i + Z.of_nat (Datatypes.S n))),
      (Z.eqb_spec k (a + i)), (Z.leb_spec 0 k), (Z.leb_spec 0 (a + i)),
      (Z.ltb_spec k (Z.of_nat (length data))),
      (Z.ltb_spec (a + i) (Z.of_nat (length data)));
      simpl; try reflexivity; try lia.
    subst k. do 3 f_equal; lia.
Qed.

(** X4.  [localWrite] changes nothing but the bytes it is asked to write:
    the array keeps its length and every element outside the window
    [address, address + size) reads as before. *)
Theorem localWrite_frame (data : list byte) (address size value k : Z) :
  k < address \/ address + size <= k ->
  length (Memory.localWrite data address size value) = length data /\
  Uint8Array.get (Memory.localWrite data address size value) k
  = Uint8Array.get data k.
Proof.
  intros Hk. unfold Memory.localWrite.
  split; [apply localWrite_loop_length|].
  rewrite get_localWrite_loop.
  destruct (Z.leb_spec (address + 0) k),
    (Z.ltb_spec k (address + 0 + Z.of_nat (Z.to_nat size)));
    simpl; try reflexivity.
  lia.
Qed.

Lemma localWrite_frame_witness :
  length (Memory.localWrite (repeat x00 8) 2 4 (-1)) = 8%nat /\
  Uint8Array.get (Memory.localWrite (repeat x00 8) 2 4 (-1)) 6 = Some 0.
Proof.
  apply (localWrite_frame (repeat x00 8) 2 4 (-1) 6). lia.
Defined.

(** Reading where every element is 0 or missing gives 0, whatever the
    size. *)
Lemma localRead_loop_zero (n : nat) (data : list byte) (a i : Z) :
  (forall k, js.number (Uint8Array.get data k) = 0) ->
  Memory.localRead_loop data a n i 0 = 0.
Proof.
  intros H. revert i. induction n as [|n IH]; intros i; simpl; [reflexivity|].
  rewrite H.
  replace (js.or 0 (js.shl 0 (8 * i))) with 0; [apply IH|].
  unfold js.or, js.shl.
  change (js.ToInt32 0) with 0. rewrite Z.shiftl_0_l. reflexivity.
Qed.

(** X5.  Outside the array the hooks of [Memory] do not fail: a read
    that starts at or beyond the end of the array returns 0 and a write
    there leaves the array as it is, for every size. *)
Theorem memory_hooks_out_of_range (data : list byte) (address size value : Z) :
  Z.of_nat (length data) <= address ->
  Memory.localRead data address size = 0 /\
  Memory.localWrite data address size value = data.
Proof.
  intros Ha. unfold Memory.localRead, Memory.localWrite. split.
  - assert (G : forall n i, 0 <= i ->
                  Memory.localRead_loop data address n i 0 = 0).
    { induction n as [|n IH]; intros i Hi; simpl; [reflexivity|].
      unfold Uint8Array.get.
      destruct (Z.ltb_spec (address + i) 0); simpl.
      - replace (js.or 0 (js.shl 0 (8 * i))) with 0; [apply IH; lia|].
        unfold js.or, js.shl. change (js.ToInt32 0) with 0.
        rewrite Z.shiftl_0_l. reflexivity.
      - destruct (Z.leb_spec (Z.of_nat (length data)) (address + i)); [|lia].
        simpl.
        replace (js.or 0 (js.shl 0 (8 * i))) with 0; [apply IH; lia|].
        unfold js.or, js.shl. change (js.ToInt32 0) with 0.
        rewrite Z.shiftl_0_l. reflexivity. }
    apply G. lia.
  - assert (G : forall n i, 0 <= i ->
                  Memory.localWrite_loop data address value n i = data).
    { induction n as [|n IH]; intros i Hi; simpl; [reflexivity|].
      unfold Uint8Array.set.
      destruct (Z.ltb_spec (address + i) 0); simpl; [apply IH; lia|].
      destruct (Z.leb_spec (Z.of_nat (length data)) (address + i)); [|lia].
      apply IH. lia. }
    apply G. lia.
Qed.

Lemma memory_hooks_out_of_range_witness :
  Memory.localRead [x01; x02] 2 4 = 0 /\
  Memory.localWrite [x01; x02] 2 4 (-1) = [x01; x02].
Proof.
  apply (memory_hooks_out_of_range [x01; x02] 2 4 (-1)). simpl. lia.
Defined.

Lemma localRead_bytes_1 (data : list byte) (off n0 : Z) :
  0 <= n0 < 256 ->
  Uint8Array.get data (off + 0) = Some n0 ->
  Memory.localRead data off 1 = n0.
Proof.
  intros B0 G0. rewrite localRead_1. change (Z.of_nat 0) with 0.
  rewrite G0. simpl js.number.
  rewrite (or_shl_byte 0 n0 0) by (auto; simpl; lia).
  rewrite signed_small by lia. lia.
Qed.

Lemma localRead_bytes_2 (data : list byte) (off n0 n1 : Z) :
  0 <= n0 < 256 -> 0 <= n1 < 256 ->
  Uint8Array.get data (off + 0) = Some n0 ->
  Uint8Array.get data (off + 1) = Some n1 ->
  Memory.localRead data off 2 = n0 + n1 * 256.
Proof.
  intros B0 B1 G0 G1. rewrite localRead_2.
  change (Z.of_nat 0) with 0. change (Z.of_nat 1) with 1.
  rewrite G0, G1. simpl js.number.
  rewrite (or_shl_byte 0 n0 0) by (auto; simpl; lia).
  rewrite (signed_small (0 + n0 * 2 ^ 0)) by lia.
  rewrite (or_shl_byte _ n1 8) by (auto; simpl; lia).
  rewrite signed_small by lia. lia.
Qed.

Lemma localRead_bytes_4 (data : list byte) (off n0 n1 n2 n3 : Z) :
  0 <= n0 < 256 -> 0 <= n1 < 256 -> 0 <= n2 < 256 -> 0 <= n3 < 256 ->
  Uint8Array.get data (off + 0) = Some n0 ->
  Uint8Array.get data (off + 1) = Some n1 ->
  Uint8Array.get data (off + 2) = Some n2 ->
  Uint8Array.get data (off + 3) = Some n3 ->
  Memory.localRead data off 4 =
  int32.signed (n0 + n1 * 256 + n2 * 65536 + n3 * 16777216).
Proof.
  intros B0 B1 B2 B3 G0 G1 G2 G3. rewrite localRead_4.
  change (Z.of_nat 0) with 0. change (Z.of_nat 1) with 1.
  change (Z.of_nat 2) with 2. change (Z.of_nat 3) with 3.
  rewrite G0, G1, G2, G3. simpl js.number.
  rewrite (or_shl_byte 0 n0 0) by (auto; simpl; lia).
  rewrite (signed_small (0 + n0 * 2 ^ 0)) by lia.
  rewrite (or_shl_byte _ n1 8) by (auto; simpl; lia).
  rewrite (signed_small (0 + n0 * 2 ^ 0 + n1 * 2 ^ 8)) by lia.
  rewrite (or_shl_byte _ n2 16) by (auto; simpl; lia).
  rewrite (signed_small (0 + n0 * 2 ^ 0 + n1 * 2 ^ 8 + n2 * 2 ^ 16)) by lia.
  rewrite (or_shl_byte _ n3 24) by (auto; simpl; lia).
  f_equal. lia.
Qed.

(** The byte that [localWrite] leaves at position [j] of its window. *)
Lemma get_localWrite (data : list byte) (off size v j : Z) :
  0 <= off -> 0 <= j < size -> off + size <= Z.of_nat (length data) ->
  Uint8Array.get (Memory.localWrite data off size v) (off + j)
  = Some (Z.shiftr v (8 * j) mod 256).
Proof.
  intros Ho Hj Hr. unfold Memory.localWrite. rewrite get_localWrite_loop.
  destruct (Z.leb_spec (off + 0) (off + j)); [|lia].
  destruct (Z.ltb_spec (off + j) (off + 0 + Z.of_nat (Z.to_nat size))); [|lia].
  destruct (Z.leb_spec 0 (off + j)); [|lia].
  destruct (Z.ltb_spec (off + j) (Z.of_nat (length data))); [|lia].
  simpl. f_equal. unfold int32.unsignedSlice.
  replace (off + j - off) with j by lia.
  replace (8 * j + 7 - 8 * j + 1) with 8 by lia.
  change (2 ^ 8) with 256. now rewrite Z.mod_mod by lia.
Qed.

(** A read over bytes that are the little-endian bytes of [value]. *)
Lemma localRead_value (data : list byte) (off size value : Z) :
  size = 1 \/ size = 2 \/ size = 4 ->
  (forall j, 0 <= j < size ->
             Uint8Array.get data (off + j)
             = Some (Z.shiftr value (8 * j) mod 256)) ->
  Memory.localRead data off size
  = if size =? 4 then int32.signed value else value mod 2 ^ (8 * size).
Proof.
  intros Hs G.
  assert (B : forall j, 0 <= Z.shiftr value (8 * j) mod 256 < 256)
    by (intros j; apply Z.mod_pos_bound; lia).
  destruct Hs as [->|[->| ->]]; simpl Z.eqb; cbv iota.
  - rewrite (localRead_bytes_1 _ off _ (B 0)) by (apply G; lia).
    rewrite Z.shiftr_0_r. reflexivity.
  - rewrite (localRead_bytes_2 _ off _ _ (B 0) (B 1)) by (apply G; lia).
    rewrite !Z.shiftr_div_pow2 by lia.
    change (2 ^ (8 * 0)) with 1. change (2 ^ (8 * 1)) with 256.
    change (2 ^ (8 * 2)) with 65536.
    Z.to_euclidean_division_equations. lia.
  - rewrite (localRead_bytes_4 _ off _ _ _ _ (B 0) (B 1) (B 2) (B 3))
      by (apply G; lia).
    rewrite !Z.shiftr_div_pow2 by lia.
    change (2 ^ (8 * 0)) with 1. change (2 ^ (8 * 1)) with 256.
    change (2 ^ (8 * 2)) with 65536. change (2 ^ (8 * 3)) with 16777216.
    unfold int32.signed, js.ToInt32.
    Z.to_euclidean_division_equations. lia.
Qed.

(** X6.  What [localWrite] stores, [localRead] returns: after a write of
    [value] with size 1, 2 or 4 inside the array, a read of the same size
    at the same offset returns the low 8, 16 or 32 bits of [value], the
    32-bit case as a signed word. *)
Theorem localWrite_then_localRead (data : list byte) (off size value : Z) :
  size = 1 \/ size = 2 \/ size = 4 ->
  0 <= off ->
  off + size <= Z.of_nat (length data) ->
  Memory.localRead (Memory.localWrite data off size value) off size
  = if size =? 4 then int32.signed value else value mod 2 ^ (8 * size).
Proof.
  intros Hs Ho Hr. apply localRead_value; [exact Hs|].
  intros j Hj. apply get_localWrite; assumption.
Qed.

Lemma localWrite_then_localRead_witness :
  Memory.localRead (Memory.localWrite (repeat x00 8) 3 4 4294967294) 3 4 = -2 /\
  Memory.localRead (Memory.localWrite (repeat x00 8) 3 2 (-2)) 3 2 = 65534.
Proof.
  split.
  - apply (localWrite_then_localRead (repeat x00 8) 3 4 4294967294);
      [auto | lia | simpl; lia].
  - apply (localWrite_then_localRead (repeat x00 8) 3 2 (-2));
      [auto | lia | simpl; lia].
Defined.

(** ** Devices and memories as objects *)

Lemma slices_low_bits (x y w : Z) :
  1 <= w -> x mod 2 ^ w = y mod 2 ^ w ->
  int32.unsignedSlice x (w - 1) 0 = int32.unsignedSlice y (w - 1) 0 /\
  int32.signedSlice x (w - 1) 0 = int32.signedSlice y (w - 1) 0.
Proof.
  intros Hw E.
  assert (U : int32.unsignedSlice x (w - 1) 0 = int32.unsignedSlice y (w - 1) 0).
  { unfold int32.unsignedSlice. rewrite !Z.shiftr_0_r.
    replace (w - 1 - 0 + 1) with w by lia. exact E. }
  split; [exact U|].
  unfold int32.signedSlice. rewrite U.
  replace (Z.testbit x (w - 1)) with (Z.testbit y (w - 1)); [reflexivity|].
  rewrite <- (Z.mod_pow2_bits_low x w (w - 1)) by lia.
  rewrite <- (Z.mod_pow2_bits_low y w (w - 1)) by lia.
  now rewrite E.
Qed.

Section Objects.
Context {S : Type} `{!Peripheral S}.

(** X7.  A device made with a base address and a size that fit in the
    32-bit address space accepts an access that itself fits in the address
    space exactly when the access lies inside [base, base + size). *)
Theorem constructed_device_accepts
        (base size : Z) (b : Device.body S) (address n : Z) :
  0 <= base -> 1 <= size -> base + size <= 4294967296 ->
  0 <= address -> 1 <= n -> address + n <= 4294967296 ->
  Device.accepts (Device.new base size b) address n = true <->
  base <= address /\ address + n <= base + size.
Proof.
  intros Hb Hs He Ha Hn Hae. unfold Device.accepts, Device.new. simpl.
  rewrite !unsigned_small by lia.
  rewrite andb_true_iff, !Z.leb_le. lia.
Qed.

(** X8.  A memory that has just been made reads as 0 at every address,
    for every size and signedness, and reading does not change it. *)
Theorem fresh_memory_reads_zero
        (base size : Z) (d : Device.t S) (address n : Z) (signed : bool) :
  Memory_new base size = Some d ->
  Device.read d address n signed = (0, d).
Proof.
  unfold Memory_new, Uint8Array.new.
  destruct (size <? 0); simpl; [discriminate|]. intros [= <-].
  unfold Device.read, Device.localRead. simpl.
  unfold Memory.localRead. rewrite localRead_loop_zero.
  - f_equal. unfold int32.signedSlice, int32.unsignedSlice.
    rewrite Z.bits_0, Z.shiftr_0_l, Zmod_0_l. now destruct signed.
  - intros k. unfold Uint8Array.get.
    destruct ((k <? 0) || _); [reflexivity|].
    destruct (repeat x00 (Z.to_nat size) !! Z.to_nat k) as [b|] eqn:E;
      [|reflexivity].
    apply list_elem_of_lookup_2, list_elem_of_In, repeat_spec in E.
    subst b. reflexivity.
Qed.

(** An accepted access that does not run past the end of the address
    space lies inside the array of a memory object. *)
Lemma accepted_window (d : Device.t S) (data : list byte) (a n : Z) :
  Spec.memory_object d data ->
  1 <= Device.size d ->
  1 <= n -> 0 <= a -> a + n <= 4294967296 ->
  Device.accepts d a n = true ->
  let off := int32.unsigned (a - Device.firstAddress d) in
  0 <= off /\ off + n <= Z.of_nat (length data).
Proof.
  intros (first & Hd & Hlen) Hsz Hn Ha He Hacc. cbv zeta.
  unfold Device.accepts in Hacc. rewrite Hd in Hacc |- *. simpl in *.
  apply andb_true_iff in Hacc. destruct Hacc as [H1 H2].
  apply Z.leb_le in H1, H2.
  rewrite (unsigned_small (a + n - 1)) in H2 by lia.
  pose proof (unsigned_range first) as RF.
  rewrite (unsigned_small (a - int32.unsigned first)) by lia.
  split; [lia|]. rewrite Hlen.
  assert (int32.unsigned (first + Device.size d - 1)
          <= int32.unsigned first + Device.size d - 1).
  { unfold int32.unsigned, js.ToUint32 in *.
    Z.to_euclidean_division_equations. lia. }
  lia.
Qed.

End Objects.

Lemma fresh_memory_reads_zero_witness :
  Device.read Fixture.ram 7 4 true = (0, Fixture.ram).
Proof.
  apply (fresh_memory_reads_zero 0 16 Fixture.ram 7 4 true). reflexivity.
Defined.

Lemma constructed_device_accepts_witness :
  Device.accepts (Device.new 0x100 4 (Device.Subclass true)) 0x102 2 = true <->
  0x100 <= 0x102 /\ 0x102 + 2 <= 0x100 + 4.
Proof.
  apply (constructed_device_accepts 0x100 4 (Device.Subclass true) 0x102 2);
    lia.
Defined.

(** ** Stores and loads of every width through the bus *)

Section StoreLoadWide.
Context {S : Type} `{!Peripheral S}.

(** A memory object that is written and then read at the same address. *)
Lemma memory_write_then_read
      (d : Device.t S) (data : list byte) (A n v : Z) (sg : bool) :
  Spec.memory_object d data ->
  1 <= Device.size d ->
  n = 1 \/ n = 2 \/ n = 4 ->
  int32.unsigned A + n <= 4294967296 ->
  Device.accepts d (int32.unsigned A) n = true ->
  fst (Device.read (Device.write d A n v) (int32.unsigned A) n sg)
  = if sg then int32.signedSlice v (n * 8 - 1) 0
    else int32.unsignedSlice v (n * 8 - 1) 0.
Proof.
  intros Hm Hsz Hn He Hacc.
  pose proof (unsigned_range A) as RA.
  destruct (accepted_window d data (int32.unsigned A) n Hm Hsz
              ltac:(lia) ltac:(lia) He Hacc) as [H0 HW].
  rewrite unsigned_sub_unsigned in H0, HW.
  destruct Hm as (first & Hd & Hlen).
  assert (Hb : Device.body_of d = Device.MemoryData data)
    by (rewrite Hd; reflexivity).
  unfold Device.write, Device.localWrite. rewrite Hb.
  unfold Device.read, Device.localRead. simpl.
  rewrite unsigned_sub_unsigned.
  set (off := int32.unsigned (A - Device.firstAddress d)) in *.
  pose proof (localRead_value (Memory.localWrite data off n v) off n v Hn
                (fun j Hj => get_localWrite data off n v j H0 Hj HW)) as R.
  assert (E : Memory.localRead (Memory.localWrite data off n v) off n
              mod 2 ^ (n * 8) = v mod 2 ^ (n * 8)).
  { rewrite R. destruct Hn as [->|[->| ->]]; simpl Z.eqb; cbv iota.
    - change (2 ^ (8 * 1)) with (2 ^ (1 * 8)). apply Z.mod_mod. lia.
    - change (2 ^ (8 * 2)) with (2 ^ (2 * 8)). apply Z.mod_mod. lia.
    - unfold int32.signed, js.ToInt32. change (2 ^ (4 * 8)) with 4294967296.
      Z.to_euclidean_division_equations. lia. }
  destruct (slices_low_bits _ _ (n * 8) ltac:(lia) E) as [U G].
  destruct sg; assumption.
Qed.

(** X9.  A store followed by a load of the same width at the same address
    returns what was stored.  Let the first registered device that accepts
    the access be a memory of at least one byte, let every device be
    registered once and let the access of 1, 2 or 4 bytes end inside the
    address space.  After [write(A, n, v)], [read(A, n, signed)] reports no
    error and returns the low [8 n] bits of [v], sign-extended for a signed
    read and zero-extended otherwise. *)
Theorem sized_store_load_round_trip
        (b : Bus.t S) (A n v : Z) (sg : bool)
        (r : nat) (d : Device.t S) (data : list byte) :
  Spec.first_accepting b (int32.unsigned A) n = Some r ->
  Bus.store b !! r = Some d ->
  Spec.memory_object d data ->
  1 <= Device.size d ->
  List.NoDup (Bus.devices b) ->
  n = 1 \/ n = 2 \/ n = 4 ->
  int32.unsigned A + n <= 4294967296 ->
  let b1 := Bus.write b A n v in
  Bus.error b1 = false /\
  fst (Bus.read b1 A n sg)
  = (if sg then int32.signedSlice v (n * 8 - 1) 0
     else int32.unsignedSlice v (n * 8 - 1) 0) /\
  Bus.error (snd (Bus.read b1 A n sg)) = false.
Proof.
  intros Hfirst Hd Hm Hsz Hnd Hn He. cbv zeta.
  destruct (find_accepts _ _ _ Hfirst) as [Hacc Hin].
  assert (Hd_acc : Device.accepts d (int32.unsigned A) n = true).
  { unfold Bus.accepts_ref in Hacc. now rewrite Hd in Hacc. }
  assert (Hmem : In r (Bus.getDevices b A n)).
  { unfold Bus.getDevices. apply List.filter_In. auto. }
  assert (Hcount : count_occ Nat.eq_dec (Bus.getDevices b A n) r = 1%nat).
  { apply (proj1 (NoDup_count_occ' Nat.eq_dec _)); [|exact Hmem].
    unfold Bus.getDevices. now apply List.NoDup_filter. }
  assert (Hst : Bus.store (Bus.write b A n v) !! r
                = Some (Device.write d A n v)).
  { simpl. rewrite write_loop_lookup, Hd, Hcount. reflexivity. }
  split.
  { simpl. destruct (Bus.getDevices b A n); [destruct Hmem | reflexivity]. }
  pose proof (bus_read_spec (Bus.write b A n v) A n sg) as [H _].
  rewrite first_accepting_write, Hfirst in H.
  destruct H as (d1 & Hd1 & _ & H). rewrite Hst in Hd1.
  injection Hd1 as <-. rewrite H. simpl fst. simpl snd. simpl Bus.error.
  split; [|reflexivity].
  now apply (memory_write_then_read d data).
Qed.

End StoreLoadWide.

Lemma sized_store_load_round_trip_witness :
  let b1 := Bus.write (Fixture.board false) 4 4 (-2) in
  Bus.error b1 = false /\
  fst (Bus.read b1 4 4 true) = -2 /\
  Bus.error (snd (Bus.read b1 4 4 true)) = false.
Proof.
  apply (sized_store_load_round_trip (Fixture.board false) 4 4 (-2) true 0%nat
           Fixture.ram (repeat x00 16)).
  - reflexivity.
  - reflexivity.
  - exists 0. split; reflexivity.
  - vm_compute. discriminate.
  - change (List.NoDup [0%nat; 1%nat]).
    apply List.NoDup_cons; [simpl; intros [H|[]]; discriminate|].
    apply List.NoDup_cons; [intros [] | apply List.NoDup_nil].
  - auto.
  - vm_compute. discriminate.
Defined.

(** ** Registration, reset and addressing on the bus *)

Lemma find_app_one {A : Type} (f : A -> bool) (l : list A) (x : A) :
  List.find f (l ++ [x]) =
  match List.find f l with
  | Some y => Some y
  | None => if f x then Some x else None
  end.
Proof.
  induction l as [|a l IH]; simpl; [reflexivity|].
  destruct (f a); [reflexivity | exact IH].
Qed.

Section BusOperations.
Context {S : Type} `{!Peripheral S}.


Lemma reset_header (d : Device.t S) :
  Device.firstAddress (Device.reset d) = Device.firstAddress d /\
  Device.lastAddress (Device.reset d) = Device.lastAddress d.
Proof. unfold Device.reset. destruct (Device.body_of d); simpl; auto. Qed.

Lemma reset_loop_lookup (refs : list nat) (st : list (Device.t S)) (r : nat) :
  Bus.reset_loop st refs !! r =
  Nat.iter (count_occ Nat.eq_dec refs r) Device.reset <$> st !! r.
Proof.
  unfold Bus.reset_loop. revert st.
  induction refs as [|r0 refs IH]; intros st; simpl.
  - now destruct (st !! r).
  - rewrite IH. destruct (Nat.eq_dec r0 r) as [->|N].
    + destruct (st !! r) as [d|] eqn:E.
      * rewrite list_lookup_insert_eq by (eapply lookup_lt_Some; eauto).
        simpl. f_equal. apply (Nat.iter_swap _ _ Device.reset).
      * rewrite E. reflexivity.
    + destruct (st !! r0); [|reflexivity].
      now rewrite list_lookup_insert_ne.
Qed.

Lemma iter_reset (n : nat) (d : Device.t S) :
  (Spec.plain_device d -> Nat.iter n Device.reset d = d) /\
  Device.firstAddress (Nat.iter n Device.reset d) = Device.firstAddress d /\
  Device.lastAddress (Nat.iter n Device.reset d) = Device.lastAddress d.
Proof.
  induction n as [|n (IH1 & IH2 & IH3)]; simpl; [auto|].
  destruct (reset_header (Nat.iter n Device.reset d)) as [-> ->].
  repeat split; try assumption.
  intros P. rewrite (IH1 P). unfold Device.reset.
  unfold Spec.plain_device in P. now destruct (Device.body_of d).
Qed.

(** X10.  Registration order is priority.  After [addDevice], an access
    that an earlier device accepts is still routed to that device; the new
    device serves exactly the accesses that it accepts and that nobody
    served before.  The objects and the error flag are not touched. *)
Theorem addDevice_keeps_priority (b : Bus.t S) (device : nat) (a n : Z) :
  Spec.first_accepting (Bus.addDevice b device) a n =
  match Spec.first_accepting b a n with
  | Some r => Some r
  | None =>
      if Bus.accepts_ref (Bus.store b) a n device then Some device else None
  end /\
  Bus.store (Bus.addDevice b device) = Bus.store b /\
  Bus.error (Bus.addDevice b device) = Bus.error b.
Proof.
  unfold Spec.first_accepting. simpl. rewrite find_app_one. auto.
Qed.

(** X11.  [Bus.reset] keeps the device list and the error flag, gives
    every device object one call of its [reset] per registration, leaves
    instances of [Device] and of [Memory] exactly as they are (a memory
    keeps its contents) and does not change the routing of any access. *)
Theorem bus_reset_keeps_memories (b : Bus.t S) :
  Bus.devices (Bus.reset b) = Bus.devices b /\
  Bus.error (Bus.reset b) = Bus.error b /\
  (forall r d, Bus.store b !! r = Some d ->
               Bus.store (Bus.reset b) !! r =
               Some (Nat.iter (count_occ Nat.eq_dec (Bus.devices b) r)
                       Device.reset d) /\
               (Spec.plain_device d -> Bus.store (Bus.reset b) !! r = Some d)) /\
  (forall a n, Spec.first_accepting (Bus.reset b) a n
               = Spec.first_accepting b a n).
Proof.
  split; [reflexivity|]. split; [reflexivity|]. split.
  - intros r d Hd. simpl. rewrite reset_loop_lookup, Hd. simpl.
    split; [reflexivity|]. intros P. f_equal. now apply iter_reset.
  - intros a n. unfold Spec.first_accepting. simpl. apply find_ext.
    intros r. unfold Bus.accepts_ref. rewrite reset_loop_lookup.
    destruct (Bus.store b !! r) as [d|]; simpl; [|reflexivity].
    unfold Device.accepts.
    destruct (iter_reset (count_occ Nat.eq_dec (Bus.devices b) r) d)
      as (_ & -> & ->).
    reflexivity.
Qed.




End BusOperations.


(** ** Bus errors and interrupts as the core sees them *)

Section StepErrors.
Context {S : Type} `{!Peripheral S}.
Variable fromWord : Z -> bin.instr.

(** X13.  A fetch from an address that no device accepts does not stop the
    core: the step reports [fetchError], decodes the word 0 and goes on.
    When some device accepts the fetch there is no [fetchError]. *)
Theorem step_fetch_error (c : Virgule.t) (bus : Bus.t S) :
  let '(tr, _, _) := Virgule.step fromWord c bus in
  Trace.fetchError tr
  = Spec.unmapped bus (int32.unsigned (Virgule.pc c)) 4 /\
  (Trace.fetchError tr = true -> Trace.instr tr = fromWord 0).
Proof.
  unfold Virgule.step.
  pose proof (bus_read_error bus (Virgule.pc c) 4 false) as E.
  pose proof (bus_read_spec bus (Virgule.pc c) 4 false) as [R _].
  fold (Spec.unmapped bus (int32.unsigned (Virgule.pc c)) 4) in E.
  unfold Spec.unmapped in *.
  destruct (Bus.read bus (Virgule.pc c) 4 false) as [word bus1].
  destruct (Virgule.writeback _ _ _ _ _ _) as [[c2 bus2] l].
  simpl in *. split; [exact E|].
  destruct (Spec.first_accepting bus (int32.unsigned (Virgule.pc c)) 4).
  - rewrite E. discriminate.
  - destruct R as [_ R]. injection R as -> _. reflexivity.
Qed.


Lemma plain_irq (bus : Bus.t S) :
  Forall Spec.plain_device (Bus.store bus) -> Bus.irq bus = false.
Proof.
  intros P. unfold Bus.irq.
  apply not_true_is_false. intros E.
  apply existsb_exists in E. destruct E as (r & _ & E).
  destruct (Bus.store bus !! r) as [d|] eqn:L; [|discriminate].
  rewrite Forall_forall in P.
  specialize (P d (list_elem_of_lookup_2 _ _ _ L)).
  unfold Device.irq in E. unfold Spec.plain_device in P.
  destruct (Device.body_of d); [discriminate | discriminate | exact P].
Qed.

Lemma plain_read (bus : Bus.t S) (A n : Z) (g : bool) :
  Forall Spec.plain_device (Bus.store bus) ->
  Forall Spec.plain_device (Bus.store (snd (Bus.read bus A n g))).
Proof.
  intros P. pose proof (bus_read_spec bus A n g) as [R _].
  destruct (Spec.first_accepting bus (int32.unsigned A) n) as [r|].
  - destruct R as (d & Hd & _ & ->). simpl.
    apply Forall_insert; [exact P|].
    rewrite Forall_forall in P.
    specialize (P d (list_elem_of_lookup_2 _ _ _ Hd)).
    unfold Device.read, Device.localRead. unfold Spec.plain_device in *.
    destruct (Device.body_of d) eqn:B; simpl; rewrite ?B; tauto.
  - destruct R as [_ ->]. exact P.
Qed.

Lemma plain_write (bus : Bus.t S) (A n v : Z) :
  Forall Spec.plain_device (Bus.store bus) ->
  Forall Spec.plain_device (Bus.store (Bus.write bus A n v)).
Proof.
  intros P. simpl. unfold Bus.write_loop.
  generalize (Bus.getDevices bus A n). intros refs.
  revert P. generalize (Bus.store bus).
  induction refs as [|r refs IH]; intros st P; simpl; [exact P|].
  apply IH. destruct (st !! r) as [d|] eqn:L; [|exact P].
  apply Forall_insert; [exact P|].
  rewrite Forall_forall in P.
  specialize (P d (list_elem_of_lookup_2 _ _ _ L)).
  unfold Device.write, Device.localWrite, Spec.plain_device in *.
  destruct (Device.body_of d) eqn:B; simpl; rewrite ?B; tauto.
Qed.

Lemma plain_step (c : Virgule.t) (bus : Bus.t S) :
  Forall Spec.plain_device (Bus.store bus) ->
  let '(tr, c', bus') := Virgule.step fromWord c bus in
  Forall Spec.plain_device (Bus.store bus') /\
  Trace.irq tr = false /\
  (js.truthy (Virgule.irqState c) = false ->
   js.truthy (Virgule.irqState c') = false).
Proof.
  intros P. unfold Virgule.step. rewrite (plain_irq bus P).
  pose proof (plain_read bus (Virgule.pc c) 4 false P) as P1.
  destruct (Bus.read bus (Virgule.pc c) 4 false) as [word bus1].
  simpl in P1. set (i := fromWord word). set (r := Virgule.alu _ _ _).
  match goal with
  | |- context [Virgule.writeback ?c ?b ?i ?r ?p ?v] =>
      pose proof (writeback_frame c b i r p v) as F;
      assert (P2 : Forall Spec.plain_device
                     (Bus.store (snd (fst (Virgule.writeback c b i r p v)))));
      [|destruct (Virgule.writeback c b i r p v) as [[c2 bus2] l]]
  end.
  { unfold Virgule.writeback.
    destruct (bin.wbMem i) as [[]|]; simpl;
      try exact P1; try (now apply plain_write);
      match goal with
      | |- context [Bus.read bus1 r ?n ?g] =>
          pose proof (plain_read bus1 r n g P1);
          destruct (Bus.read bus1 r n g); assumption
      end. }
  simpl in F, P2. destruct F as (_ & _ & F3 & _).
  simpl. split; [exact P2|]. split; [reflexivity|].
  intros T. unfold Virgule.update_pc.
  destruct (String.eqb _ _); [reflexivity|].
  destruct (Virgule.branch_taken _ _ _); simpl; now rewrite F3.
Qed.

(** X15.  On a bus whose device objects are all instances of [Device] or
    [Memory], [irq()] is never true: after any sequence of [step] and
    [reset] calls the devices are still of these classes, the next step is
    not an interrupt entry, and a core that was not in handler state is
    still not in handler state. *)
Theorem no_interrupt_without_peripheral
        (ks : list Virgule.call) (c : Virgule.t) (bus : Bus.t S) :
  Forall Spec.plain_device (Bus.store bus) ->
  let m := Virgule.run fromWord ks (c, bus) in
  Forall Spec.plain_device (Bus.store (snd m)) /\
  Bus.irq (snd m) = false /\
  (let '(tr, _, _) := Virgule.step fromWord (fst m) (snd m) in
   Trace.irq tr = false) /\
  (js.truthy (Virgule.irqState c) = false ->
   js.truthy (Virgule.irqState (fst m)) = false).
Proof.
  intros P. cbv zeta.
  assert (G : Forall Spec.plain_device
                (Bus.store (snd (Virgule.run fromWord ks (c, bus)))) /\
              (js.truthy (Virgule.irqState c) = false ->
               js.truthy
                 (Virgule.irqState (fst (Virgule.run fromWord ks (c, bus))))
               = false)).
  { revert c bus P. induction ks as [|k ks IH]; intros c bus P; simpl.
    - auto.
    - destruct k; simpl.
      + pose proof (plain_step c bus P) as H.
        destruct (Virgule.step fromWord c bus) as [[tr c'] bus'].
        destruct H as (H1 & _ & H3).
        destruct (IH c' bus' H1) as [I1 I2]. split; [exact I1|].
        intros T. apply I2, H3, T.
      + destruct (IH (Virgule.reset c) bus P) as [I1 I2]. auto. }
  destruct G as [G1 G2].
  split; [exact G1|]. split; [now apply plain_irq|]. split; [|exact G2].
  pose proof (plain_step (fst (Virgule.run fromWord ks (c, bus)))
                (snd (Virgule.run fromWord ks (c, bus))) G1) as H.
  destruct (Virgule.step fromWord _ _) as [[tr c'] bus']. tauto.
Qed.

End StepErrors.

Lemma no_interrupt_without_peripheral_witness :
  let m := Virgule.run Fixture.decode [Virgule.Step; Virgule.Reset; Virgule.Step]
             (Virgule.new 4, Fixture.mirrored) in
  Forall Spec.plain_device (Bus.store (snd m)) /\
  Bus.irq (snd m) = false /\
  (let '(tr, _, _) := Virgule.step Fixture.decode (fst m) (snd m) in
   Trace.irq tr = false) /\
  (js.truthy (Virgule.irqState (Virgule.new 4)) = false ->
   js.truthy (Virgule.irqState (fst m)) = false).
Proof.
  apply (no_interrupt_without_peripheral Fixture.decode
           [Virgule.Step; Virgule.Reset; Virgule.Step]
           (Virgule.new 4) Fixture.mirrored).
  repeat constructor.
Defined.

(** ** The program counter and the ALU *)

(** X16.  [setPc] stores its argument with the two low bits dropped,
    modulo 2^32, for every integer argument; storing the resulting [pc]
    again changes nothing. *)
Theorem setPc_closed_form (c : Virgule.t) (value : Z) :
  Virgule.pc (Virgule.setPc c value) = (value - value mod 4) mod 4294967296 /\
  Virgule.setPc (Virgule.setPc c value) (Virgule.pc (Virgule.setPc c value))
  = Virgule.setPc c value.
Proof.
  assert (E : int32.unsigned (js.and value (js.not 3))
              = (value - value mod 4) mod 4294967296).
  { rewrite and_not3. unfold int32.unsigned, js.ToUint32, js.ToInt32.
    Z.to_euclidean_division_equations. lia. }
  split; [exact E|].
  unfold Virgule.setPc. simpl. f_equal.
  destruct (aligned_word value) as [R M].
  now apply aligned_word_id.
Qed.

Section Sequential.
Context {S : Type} `{!Peripheral S}.
Variable fromWord : Z -> bin.instr.

(** X17.  Sequential execution wraps around the address space: from an
    aligned unsigned 32-bit [pc], a step that is not an interrupt entry,
    does not decode ["mret"] and does not take a branch ends with
    [pc = (pc + 4) mod 2^32], which is 0 after 0xFFFFFFFC. *)
Theorem step_sequential_pc (c : Virgule.t) (bus : Bus.t S) :
  0 <= Virgule.pc c < 4294967296 ->
  Virgule.pc c mod 4 = 0 ->
  let '(tr, c', _) := Virgule.step fromWord c bus in
  Trace.irq tr = true \/
  bin.name (Trace.instr tr) = "mret"%string \/
  Trace.taken tr = true \/
  Virgule.pc c' = (Virgule.pc c + 4) mod 4294967296.
Proof.
  intros R M.
  destruct (step_control fromWord c bus) as [c2 H].
  destruct (Virgule.step fromWord c bus) as [[tr c'] bus'].
  destruct H as (-> & _ & Hinc & _).
  destruct (Trace.irq tr); [now left | right].
  destruct (String.eqb_spec (bin.name (Trace.instr tr)) "mret") as [E|N];
    [now left | right].
  destruct (Trace.taken tr) eqn:T; [now left | right].
  unfold Virgule.update_pc.
  destruct (String.eqb_spec (bin.name (Trace.instr tr)) "mret"); [tauto|].
  simpl. rewrite Hinc, and_not3.
  unfold int32.unsigned, js.ToUint32, js.ToInt32.
  Z.to_euclidean_division_equations. lia.
Qed.

End Sequential.

Lemma step_sequential_pc_witness :
  let c := {| Virgule.x := [0; 0]; Virgule.pc := 4294967292;
              Virgule.mepc := 0; Virgule.irqState := None |} in
  let '(tr, c', _) := Virgule.step Fixture.decode c (Fixture.board false) in
  Trace.irq tr = true \/
  bin.name (Trace.instr tr) = "mret"%string \/
  Trace.taken tr = true \/
  Virgule.pc c' = (4294967292 + 4) mod 4294967296.
Proof.
  apply (step_sequential_pc Fixture.decode
           {| Virgule.x := [0; 0]; Virgule.pc := 4294967292;
              Virgule.mepc := 0; Virgule.irqState := None |}
           (Fixture.board false)); simpl; [lia | reflexivity].
Defined.

Lemma count_low5 (b : Z) : js.count b = b mod 32.
Proof.
  unfold js.count, js.ToUint32. Z.to_euclidean_division_equations. lia.
Qed.

(** X18.  The ALU wraps additions and subtractions to signed 32 bits, and
    the two undo each other: subtracting [b] from the sum of [a] and [b]
    gives [a] as a signed word, and so does adding [b] to the
    difference. *)
Theorem alu_add_sub (a b : Z) :
  Spec.is_int32 (Virgule.alu (Some bin.alu_add) a b) /\
  Spec.is_int32 (Virgule.alu (Some bin.alu_sub) a b) /\
  Virgule.alu (Some bin.alu_sub) (Virgule.alu (Some bin.alu_add) a b) b
  = int32.signed a /\
  Virgule.alu (Some bin.alu_add) (Virgule.alu (Some bin.alu_sub) a b) b
  = int32.signed a.
Proof.
  simpl. repeat split; try apply signed_range;
    unfold int32.signed, js.ToInt32;
    Z.to_euclidean_division_equations; lia.
Qed.

(** X19.  The three shifts use the low five bits of the shift amount
    only: shifting by [b] and by [b mod 32] give the same result. *)
Theorem alu_shift_amount (a b : Z) :
  Virgule.alu (Some bin.alu_sll) a b = Virgule.alu (Some bin.alu_sll) a (b mod 32) /\
  Virgule.alu (Some bin.alu_srl) a b = Virgule.alu (Some bin.alu_srl) a (b mod 32) /\
  Virgule.alu (Some bin.alu_sra) a b = Virgule.alu (Some bin.alu_sra) a (b mod 32).
Proof.
  simpl. unfold js.shl, js.shr, js.sar.
  rewrite !count_low5, Z.mod_mod by lia. auto.
Qed.

(** X20.  The branch conditions come in complementary pairs ([ne] is the
    negation of [eq], [ge] of [lt], [geu] of [ltu]), and on signed 32-bit
    register values they agree with the ALU comparisons: [slt] yields 1
    exactly when [lt] is taken and [sltu] exactly when [ltu] is taken. *)
Theorem comparisons_agree (x1 x2 : Z) :
  Spec.is_int32 x1 -> Spec.is_int32 x2 ->
  Virgule.branch_taken (Some bin.br_ne) x1 x2
  = negb (Virgule.branch_taken (Some bin.br_eq) x1 x2) /\
  Virgule.branch_taken (Some bin.br_ge) x1 x2
  = negb (Virgule.branch_taken (Some bin.br_lt) x1 x2) /\
  Virgule.branch_taken (Some bin.br_geu) x1 x2
  = negb (Virgule.branch_taken (Some bin.br_ltu) x1 x2) /\
  Virgule.alu (Some bin.alu_slt) x1 x2
  = Z.b2z (Virgule.branch_taken (Some bin.br_lt) x1 x2) /\
  Virgule.alu (Some bin.alu_sltu) x1 x2
  = Z.b2z (Virgule.branch_taken (Some bin.br_ltu) x1 x2).
Proof.
  intros H1 H2. unfold Spec.is_int32 in *. simpl.
  rewrite !signed_small by lia.
  split; [reflexivity|]. split; [|split; [|split]].
  - rewrite Z.geb_leb. destruct (Z.leb_spec x2 x1), (Z.ltb_spec x1 x2);
      simpl; auto; lia.
  - rewrite Z.geb_leb.
    destruct (Z.leb_spec (int32.unsigned x2) (int32.unsigned x1)),
      (Z.ltb_spec (int32.unsigned x1) (int32.unsigned x2)); simpl; auto; lia.
  - now destruct (x1 <? x2).
  - now destruct (int32.unsigned x1 <? int32.unsigned x2).
Qed.

Lemma comparisons_agree_witness :
  Virgule.alu (Some bin.alu_slt) (-1) 1 = 1 /\
  Virgule.alu (Some bin.alu_sltu) (-1) 1 = 0.
Proof.
  destruct (comparisons_agree (-1) 1) as (_ & _ & _ & H1 & H2);
    [unfold Spec.is_int32; lia | unfold Spec.is_int32; lia |].
  split; [exact H1 | exact H2].
Defined.

(** ** Further concrete runs *)

(** On the board, a reset of the bus lowers the interrupt line and leaves
    the memory object as it is. *)
Lemma bus_reset_keeps_memories_witness :
  Bus.store (Bus.reset (Fixture.program true)) !! 0%nat
  = Bus.store (Fixture.program true) !! 0%nat /\
  Bus.irq (Bus.reset (Fixture.program true)) = false.
Proof.
  destruct (bus_reset_keeps_memories (Fixture.program true))
    as (_ & _ & H & _).
  split; [|reflexivity].
  destruct (Bus.store (Fixture.program true) !! 0%nat) as [d|] eqn:E;
    [|discriminate].
  destruct (H 0%nat d E) as [_ H2]. rewrite H2; [reflexivity|].
  vm_compute in E. injection E as <-. exact I.
Defined.

(** A core on a bus without devices: every fetch fails and decodes 0. *)
Lemma step_fetch_error_witness :
  let '(tr, _, _) :=
    Virgule.step Fixture.decode (Virgule.new 4) (Bus.new (S := bool)) in
  Trace.fetchError tr = true /\ Trace.instr tr = Fixture.decode 0.
Proof.
  pose proof (step_fetch_error Fixture.decode (Virgule.new 4)
                (Bus.new (S := bool))) as H.
  destruct (Virgule.step Fixture.decode (Virgule.new 4) Bus.new)
    as [[tr c'] bus'].
  destruct H as [H1 H2]. split; [exact H1 | exact (H2 H1)].
Defined.
